(** * depose: a verification development for [main.go]

    The program reads [package.json], marks every declared dependency that a
    script or a scanned source line refers to, and rewrites the manifest
    without the lines of the dependencies left unmarked.

    Go strings are byte sequences: they are modelled by [string] (a list of
    8-bit [ascii]).  The map [d.mp] is a [gmap string bool]; the mutex around
    it makes every [markModuleAsFound] one atomic step, so a concurrent scan
    is a sequence of such steps in some order. *)

From Stdlib Require Import Ascii String List Arith Lia Bool.
From stdpp Require Import base option list gmap strings.
Import ListNotations.

Local Open Scope stdpp_scope.

(** The two quote characters, by their byte value. *)
Definition dquote : ascii := "034"%char.
Definition squote : ascii := "039"%char.

(** ** The [strings] package *)

Module GoStrings.

(** [len(s)] *)
Definition len (s : string) : nat := String.length s.

(** [strings.HasPrefix(s, prefix)] *)
Fixpoint HasPrefix (s prefix : string) {struct prefix} : bool :=
  match prefix, s with
  | EmptyString, _ => true
  | String _ _, EmptyString => false
  | String p prefix', String c s' =>
      if Ascii.eqb c p then HasPrefix s' prefix' else false
  end.

(** [s[n:]] *)
Fixpoint sliceFrom (n : nat) (s : string) : string :=
  match n, s with
  | O, _ => s
  | S _, EmptyString => EmptyString
  | S n', String _ s' => sliceFrom n' s'
  end.

(** [s[:n]] *)
Fixpoint sliceTo (n : nat) (s : string) : string :=
  match n, s with
  | O, _ => EmptyString
  | S _, EmptyString => EmptyString
  | S n', String c s' => String c (sliceTo n' s')
  end.

(** [strings.HasSuffix(s, suffix)]:
    [len(s) >= len(suffix) && s[len(s)-len(suffix):] == suffix] *)
Definition HasSuffix (s suffix : string) : bool :=
  (len suffix <=? len s)%nat
  && String.eqb (sliceFrom (len s - len suffix) s) suffix.

(** [strings.TrimSuffix(s, suffix)] *)
Definition TrimSuffix (s suffix : string) : string :=
  if HasSuffix s suffix then sliceTo (len s - len suffix) s else s.

(** [strings.Contains(s, substr)]: [substr] occurs at some offset of [s]. *)
Fixpoint Contains (s substr : string) : bool :=
  HasPrefix s substr
  || match s with
     | EmptyString => false
     | String _ s' => Contains s' substr
     end.

(** [strings.Split(s, sep)] for a non-empty [sep]: the leftmost occurrence
    of [sep] ends the current piece and the search goes on behind it.  The
    scan walks [s] once; [skip] counts the bytes of a separator still to be
    passed over and [cur] holds the piece being collected, reversed. *)
Fixpoint splitFrom (sep : string) (skip : nat) (cur : list ascii)
    (s : string) : list string :=
  match s with
  | EmptyString => [string_of_list_ascii (rev cur)]
  | String c s' =>
      match skip with
      | S k => splitFrom sep k cur s'
      | O =>
          if HasPrefix s sep
          then string_of_list_ascii (rev cur)
                 :: splitFrom sep (len sep - 1) [] s'
          else splitFrom sep 0 (c :: cur) s'
      end
  end.

Definition Split (s sep : string) : list string := splitFrom sep 0 [] s.

End GoStrings.

Import GoStrings.

(** ** The [regexp] package, for the two patterns of the program

    Both patterns are deterministic: a run of white space is followed by a
    byte that is not white space, and a run of bytes other than quotes by a
    quote, so the greedy choice is the only one and no backtracking takes
    place. *)

Module GoRegexp.

(** The class [\s]: tab, line feed, form feed, carriage return, space. *)
Definition isSpace (c : ascii) : bool :=
  match c with
  | "009" | "010" | "012" | "013" | " " => true
  | _ => false
  end%char.

(** The class of the two quotes, double and single. *)
Definition isQuote (c : ascii) : bool :=
  Ascii.eqb c dquote || Ascii.eqb c squote.

(** [\s*]: what is left behind the longest run of white space. *)
Fixpoint skipSpaces (s : string) : string :=
  match s with
  | String c s' => if isSpace c then skipSpaces s' else s
  | EmptyString => EmptyString
  end.

(** The longest run of bytes that are not quotes. *)
Fixpoint spanName (s : string) : string :=
  match s with
  | String c s' => if isQuote c then EmptyString else String c (spanName s')
  | EmptyString => EmptyString
  end.

(** White space, a quote, one or more bytes that are not quotes, and a
    quote, at the start of [s]: the captured text between the quotes and
    what follows the closing quote. *)
Definition quotedName (s : string) : option (string * string) :=
  match skipSpaces s with
  | String q r =>
      if isQuote q then
        let name := spanName r in
        match name, sliceFrom (len name) r with
        | String _ _, String q' rest =>
            if isQuote q' then Some (name, rest) else None
        | _, _ => None
        end
      else None
  | EmptyString => None
  end.

(** One element of the result of [FindAllStringSubmatch]: the text of the
    match and of the two groups, an unmatched group being empty. *)
Record Submatch := { whole : string; group1 : string; group2 : string }.

(** A keyword followed by a quoted name, at the start of [s]. *)
Definition keywordQuoted (kw s : string) : option (string * string) :=
  if HasPrefix s kw then quotedName (sliceFrom (len kw) s) else None.

(** The pattern of [handleImportCase] at the start of [s]: the first
    alternative is tried before the second. *)
Definition importAt (s : string) : option (Submatch * string) :=
  match keywordQuoted "from" s with
  | Some (name, rest) =>
      Some ({| whole := sliceTo (len s - len rest) s;
               group1 := name; group2 := "" |}, rest)
  | None =>
      match keywordQuoted "import" s with
      | Some (name, rest) =>
          Some ({| whole := sliceTo (len s - len rest) s;
                   group1 := ""; group2 := name |}, rest)
      | None => None
      end
  end.

(** [re.FindAllStringSubmatch(s, -1)]: the leftmost match, then the
    leftmost match behind it, and so on.  [skip] counts the bytes of the
    last match that are still to be passed over. *)
Fixpoint findAllFrom (skip : nat) (s : string) : list Submatch :=
  match s with
  | EmptyString => []
  | String _ s' =>
      match skip with
      | S k => findAllFrom k s'
      | O =>
          match importAt s with
          | Some (m, _) => m :: findAllFrom (len (whole m) - 1) s'
          | None => findAllFrom 0 s'
          end
      end
  end.

Definition FindAllStringSubmatch (s : string) : list Submatch :=
  findAllFrom 0 s.

(** The pattern of [removeTrailingCommas], a comma, white space and a
    closing brace, at the start of [s]: what follows the brace. *)
Definition commaBraceAt (s : string) : option string :=
  match s with
  | String c r =>
      if Ascii.eqb c ","%char then
        match skipSpaces r with
        | String b rest => if Ascii.eqb b "}"%char then Some rest else None
        | EmptyString => None
        end
      else None
  | EmptyString => None
  end.

(** [re.ReplaceAllString]: every match is replaced by a closing
    brace and the bytes between matches are copied. *)
Fixpoint replaceAllFrom (skip : nat) (s : string) : string :=
  match s with
  | EmptyString => EmptyString
  | String c s' =>
      match skip with
      | S k => replaceAllFrom k s'
      | O =>
          match commaBraceAt s with
          | Some rest => String "}"%char (replaceAllFrom (len s' - len rest) s')
          | None => String c (replaceAllFrom 0 s')
          end
      end
  end.

Definition ReplaceAllString (s : string) : string := replaceAllFrom 0 s.

End GoRegexp.

Import GoRegexp.

(** ** The usage table *)

(** [type Dependency struct { mp map[string]bool; mu sync.Mutex }] *)
Record Dependency := { mp : gmap string bool }.

(** [markModuleAsFound]: under the lock, an entry that exists is set to
    [true]; nothing happens for a name that is not a key. *)
Definition markModuleAsFound (moduleName : string) (d : Dependency)
    : Dependency :=
  match mp d !! moduleName with
  | Some _ => {| mp := <[moduleName := true]> (mp d) |}
  | None => d
  end.

(** A run of calls, in the order in which they took the lock. *)
Definition markAll (names : list string) (d : Dependency) : Dependency :=
  foldl (fun d n => markModuleAsFound n d) d names.

(** ** The reference extractor *)

(** The separator of [handleRequireCase], the word require with an opening
    parenthesis and a double quote, and the suffix it trims, a double quote
    with a closing parenthesis and a semicolon. *)
Definition requireOpen : string := "require(" +:+ String dquote "".
Definition requireClose : string := String dquote ");".

(** The body of the loop of [handleRequireCase] for the piece [v] at index
    [i]. *)
Definition requireBody (i : nat) (v : string) (d : Dependency) : Dependency :=
  if (i =? 0)%nat then d
  else if negb (HasPrefix v ".") then
    let moduleName := TrimSuffix v requireClose in
    markModuleAsFound moduleName d
  else d.

(** [for i, v := range pkgs], from index [i] on. *)
Fixpoint requireLoop (i : nat) (pkgs : list string) (d : Dependency)
    : Dependency :=
  match pkgs with
  | [] => d
  | v :: pkgs' => requireLoop (S i) pkgs' (requireBody i v d)
  end.

Definition handleRequireCase (currLine : string) (d : Dependency)
    : Dependency :=
  let pkgs := Split currLine requireOpen in
  requireLoop 0 pkgs d.

(** The body of the loop of [handleImportCase]: [match[1]], or [match[2]]
    when that is empty. *)
Definition importName (m : Submatch) : string :=
  let moduleName := group1 m in
  if String.eqb moduleName "" then group2 m else moduleName.

Fixpoint importLoop (matches : list Submatch) (d : Dependency) : Dependency :=
  match matches with
  | [] => d
  | m :: matches' => importLoop matches' (markModuleAsFound (importName m) d)
  end.

Definition handleImportCase (currLine : string) (d : Dependency)
    : Dependency :=
  let matches := FindAllStringSubmatch currLine in
  importLoop matches d.

Definition scanLineAndExtractPkgs (currLine : string) (d : Dependency)
    : Dependency :=
  let hasRequireKeyword := Contains currLine "require" in
  let d := if hasRequireKeyword then handleRequireCase currLine d else d in
  let hasImportKeyword := Contains currLine "import" in
  if hasImportKeyword then handleImportCase currLine d else d.

(** What the extractor prints.  The functions above give the table; these
    give, for the same loops, the lines of their [fmt.Printf] calls, which
    do not depend on the table. *)

(** [handleRequireCase]: one line for every piece that is passed on. *)
Fixpoint requirePrintLoop (i : nat) (pkgs : list string) : list string :=
  match pkgs with
  | [] => []
  | v :: pkgs' =>
      (if (i =? 0)%nat then []
       else if negb (HasPrefix v ".")
            then ["Found a packge: " +:+ TrimSuffix v requireClose]
            else [])
      ++ requirePrintLoop (S i) pkgs'
  end.

Definition handleRequireCasePrints (currLine : string) : list string :=
  requirePrintLoop 0 (Split currLine requireOpen).

(** [handleImportCase]: one line for every match. *)
Definition handleImportCasePrints (currLine : string) : list string :=
  map (fun m => "Found a package: " +:+ importName m)
      (FindAllStringSubmatch currLine).

Definition scanLinePrints (currLine : string) : list string :=
  (if Contains currLine "require" then handleRequireCasePrints currLine
   else [])
  ++ (if Contains currLine "import" then handleImportCasePrints currLine
      else []).

(** ** Errors, outcomes and the file system *)

(** The error values the program sees: the two sentinels of
    [path/filepath] and errors of the operating system. *)
Inductive error :=
| SkipDir
| SkipAll
| OsError (msg : string).

(** How a piece of the program ends: it returns, [log.Fatal] ends the
    process, or the run time panics. *)
Inductive Outcome (A : Type) :=
| Ok (a : A)
| Fatal (err : error)
| Panic.

Arguments Ok {A} a.
Arguments Fatal {A} err.
Arguments Panic {A}.

(** Sequencing stops at the first [Fatal] or [Panic]. *)
#[global] Instance Outcome_bind : MBind Outcome := fun A B k m =>
  match m with
  | Ok a => k a
  | Fatal e => Fatal e
  | Panic => Panic
  end.

#[global] Instance Outcome_ret : MRet Outcome := fun A a => Ok a.

(** [if err != nil { log.Fatal(err) }] *)
Definition orFatal {A} (r : A + error) : Outcome A :=
  match r with
  | inl a => Ok a
  | inr e => Fatal e
  end.

Set Warnings "-register-all".

(** A directory tree as [filepath.Walk] meets it: the entries of a
    directory in the order of [readDirNames], a directory that cannot be
    listed, and an entry whose [Lstat] fails. *)
Inductive FsNode :=
| File (name : string)
| Dir (name : string) (listable : bool) (entries : list FsNode)
| NoStat (name : string).

Definition nodeName (n : FsNode) : string :=
  match n with
  | File name | Dir name _ _ | NoStat name => name
  end.

(** The operations that can be refused. *)
Inductive IoOp :=
| OpOpen (path : string)
| OpCreate (path : string)
| OpReadFile (path : string)
| OpWriteFile (path : string)
| OpRename (oldpath newpath : string).

(** The world the program runs in: the regular files by path and their
    content, the tree under the working directory, the operations the
    system refuses, and what was printed so far. *)
Record World := {
  files : gmap string string;
  tree : FsNode;
  refused : IoOp -> bool;
  stdout : list string
}.

Definition setFiles (f : gmap string string) (w : World) : World :=
  {| files := f; tree := tree w; refused := refused w; stdout := stdout w |}.

(** [fmt.Println], and [fmt.Printf] with a format that ends in a line
    feed: one more line on the standard output. *)
Definition Println (line : string) (w : World) : World :=
  {| files := files w; tree := tree w; refused := refused w;
     stdout := stdout w ++ [line] |}.

(** Several lines, one after the other. *)
Definition PrintAll (lines : list string) (w : World) : World :=
  foldl (fun w line => Println line w) w lines.

Definition errorText (e : error) : string :=
  match e with
  | SkipDir => "skip this directory"
  | SkipAll => "skip everything and stop the walk"
  | OsError msg => msg
  end.

Module os.

(** [os.Open] followed by reading the file to its end. *)
Definition Open (path : string) (w : World) : string + error :=
  if refused w (OpOpen path) then inr (OsError ("open " +:+ path))
  else match files w !! path with
       | Some content => inl content
       | None => inr (OsError ("open " +:+ path))
       end.

(** [os.Create]: the file exists and is empty afterwards. *)
Definition Create (path : string) (w : World) : World + error :=
  if refused w (OpCreate path) then inr (OsError ("open " +:+ path))
  else inl (setFiles (<[path := ""]> (files w)) w).

Definition ReadFile (path : string) (w : World) : string + error :=
  if refused w (OpReadFile path) then inr (OsError ("open " +:+ path))
  else match files w !! path with
       | Some content => inl content
       | None => inr (OsError ("open " +:+ path))
       end.

Definition WriteFile (path data : string) (w : World) : World + error :=
  if refused w (OpWriteFile path) then inr (OsError ("open " +:+ path))
  else inl (setFiles (<[path := data]> (files w)) w).

(** [os.Rename]: on success the old name is gone and the new name holds
    the content, replacing what was there. *)
Definition Rename (oldpath newpath : string) (w : World)
    : World * option error :=
  if refused w (OpRename oldpath newpath)
  then (w, Some (OsError ("rename " +:+ oldpath)))
  else match files w !! oldpath with
       | Some content =>
           (setFiles (<[newpath := content]> (delete oldpath (files w))) w,
            None)
       | None => (w, Some (OsError ("rename " +:+ oldpath)))
       end.

End os.

Module bufio.

(** [dropCR] on the bytes of a line collected in reverse. *)
Definition dropCR (cur : list ascii) : string :=
  match cur with
  | "013"%char :: cur' => string_of_list_ascii (rev cur')
  | _ => string_of_list_ascii (rev cur)
  end.

(** [bufio.MaxScanTokenSize], the size the buffer of a [Scanner] grows to
    at most. *)
Definition MaxScanTokenSize : N := 65536.

(** The tokens of a [Scanner] with [ScanLines] and its own buffer: the text
    up to each line feed without a trailing carriage return, and a last
    line that is not terminated when it is not empty.  [held] counts the
    bytes of the line being collected, which the buffer holds.  When the
    buffer is full and holds no line feed, [Scan] sets [ErrTooLong] and
    returns false: the scan ends there, without that line and without what
    follows, and since the program never asks for [Err] nothing tells it
    so. *)
Fixpoint scanLinesFrom (held : N) (cur : list ascii) (s : string)
    : list string :=
  match s with
  | EmptyString =>
      match cur with
      | [] => []
      | _ :: _ => [dropCR cur]
      end
  | String c s' =>
      if Ascii.eqb c "010"%char then dropCR cur :: scanLinesFrom 0 [] s'
      else if (MaxScanTokenSize <=? held + 1)%N then []
      else scanLinesFrom (held + 1) (c :: cur) s'
  end.

Definition ScanLines (content : string) : list string :=
  scanLinesFrom 0 [] content.

End bufio.

(** ** The manifest reader *)

(** [type Package struct], the three sections the decoder fills. *)
Record Package := {
  Scripts : gmap string string;
  Dependencies : gmap string string;
  DevDependencies : gmap string string
}.

(** [for k := range m]: the keys of a map, in the order of one iteration. *)
Definition rangeKeys {V} (m : gmap string V) : list string :=
  (map_to_list m).*1.

(** [for _, v := range m] *)
Definition rangeValues {V} (m : gmap string V) : list V :=
  (map_to_list m).*2.

(** [for dependency := range deps { d.mp[dependency] = false }] *)
Definition declareAll (deps : list string) (d : Dependency) : Dependency :=
  foldl (fun d dependency => {| mp := <[dependency := false]> (mp d) |})
        d deps.

(** The inner loop over [d.mp] for one script. *)
Definition markScript (script : string) (d : Dependency) : Dependency :=
  foldl (fun d' dependency =>
           if Contains script dependency
           then {| mp := <[dependency := true]> (mp d') |}
           else d')
        d (rangeKeys (mp d)).

(** The three loops of [readPackages] on the decoded manifest. *)
Definition populate (pkg : Package) (d : Dependency) : Dependency :=
  let d := declareAll (rangeKeys (Dependencies pkg)) d in
  let d := declareAll (rangeKeys (DevDependencies pkg)) d in
  foldl (fun d script => markScript script d) d (rangeValues (Scripts pkg)).

Section Program.

(** [json.Unmarshal] into a [Package]: what the decoder stored, and the
    error it returned. *)
Variable Unmarshal : string -> Package * option error.

(** [readPackages]: only the error of [os.Open] is looked at; the second
    result of [io.ReadAll] and the result of [json.Unmarshal] are
    dropped. *)
Definition readPackages (w : World) (d : Dependency)
    : Outcome (World * Dependency) :=
  byteValue ← orFatal (os.Open "package.json" w);
  let w := Println "Reading Package.json" w in
  let '(pkg, _) := Unmarshal byteValue in
  Ok (w, populate pkg d).

(** ** The tree scanner *)

Definition filesToExclude : gmap string nat :=
  list_to_map
    [("node_modules", 0); (".gitignore", 0); (".git", 0); (".env", 0);
     ("package.json", 0); ("package-lock.json", 0); ("README.md", 0);
     ("main.go", 0); ("depose", 0)].

(** [fs.FileInfo], as far as the program looks at it. *)
Record FileInfo := { IsDir : bool }.

(** [scanDir]: the value it returns and the tasks dispatched so far, each
    [go readFileAndExtractPackages(path)] adding one.  A nil [info] makes
    [info.IsDir()] panic.  The argument [e] is not used. *)
Definition scanDir (path : string) (info : option FileInfo)
    (e : option error) (tasks : list string)
    : Outcome (option error * list string) :=
  match filesToExclude !! path with
  | Some _ =>
      match info with
      | None => Panic
      | Some info =>
          if IsDir info then Ok (Some SkipDir, tasks) else Ok (None, tasks)
      end
  | None =>
      match info with
      | None => Panic
      | Some info =>
          if negb (IsDir info) then Ok (None, tasks ++ [path])
          else Ok (None, tasks)
      end
  end.

(** [filepath.Join] of a clean path and a plain name. *)
Definition Join (path name : string) : string :=
  if String.eqb path "." then name else path +:+ "/" +:+ name.

Definition isSkipDir (e : error) : bool :=
  match e with
  | SkipDir => true
  | SkipAll | OsError _ => false
  end.

Definition isSkip (e : error) : bool :=
  match e with
  | SkipDir | SkipAll => true
  | OsError _ => false
  end.

Definition WalkFunc : Type :=
  string -> option FileInfo -> option error -> list string ->
  Outcome (option error * list string).

(** [walk] of [path/filepath], for the entry [node] found at [path]; for an
    entry without [Lstat] the callers of [walk] call the function
    themselves, with a nil [info].  Inside a directory only [SkipDir]
    from a directory (or from an entry without [Lstat]) lets the loop go
    on; every other error ends it and is handed to the caller. *)
Fixpoint walk (fn : WalkFunc) (path : string) (node : FsNode)
    (tasks : list string) : Outcome (option error * list string) :=
  match node with
  | NoStat _ => fn path None (Some (OsError ("lstat " +:+ path))) tasks
  | File _ => fn path (Some {| IsDir := false |}) None tasks
  | Dir _ listable entries =>
      let err :=
        if listable then None else Some (OsError ("open " +:+ path)) in
      '(err1, tasks) ← fn path (Some {| IsDir := true |}) err tasks;
      match err, err1 with
      | None, None =>
          (fix walkNames (names : list FsNode) (tasks : list string)
             : Outcome (option error * list string) :=
             match names with
             | [] => Ok (None, tasks)
             | child :: names' =>
                 let filename := Join path (nodeName child) in
                 '(err, tasks) ← walk fn filename child tasks;
                 match err, child with
                 | None, _ => walkNames names' tasks
                 | Some e, NoStat _ =>
                     if isSkipDir e then walkNames names' tasks
                     else Ok (Some e, tasks)
                 | Some e, Dir _ _ _ =>
                     if isSkipDir e then walkNames names' tasks
                     else Ok (Some e, tasks)
                 | Some e, File _ => Ok (Some e, tasks)
                 end
             end) entries tasks
      | _, _ => Ok (err1, tasks)
      end
  end.

(** [filepath.Walk] *)
Definition Walk (root : string) (fn : WalkFunc) (w : World)
    : Outcome (option error * list string) :=
  '(err, tasks) ← walk fn root (tree w) [];
  match err with
  | Some e => if isSkip e then Ok (None, tasks) else Ok (Some e, tasks)
  | None => Ok (None, tasks)
  end.

(** [readFileAndExtractPackages] *)
Definition readFileAndExtractPackages (file : string) (w : World)
    (d : Dependency) : Outcome Dependency :=
  readFile ← orFatal (os.Open file w);
  Ok (foldl (fun d currLine => scanLineAndExtractPkgs currLine d)
            d (bufio.ScanLines readFile)).

(** [wg.Wait()]: every task of the list has run.  The tasks are goroutines;
    here they run one after the other in the order of the list, which
    stands for the order in which they get to open their files.  [main]
    passes the order of dispatch; the properties of the scan are stated
    for every order. *)
Fixpoint waitAll (tasks : list string) (w : World) (d : Dependency)
    : Outcome Dependency :=
  match tasks with
  | [] => Ok d
  | file :: tasks' =>
      d ← readFileAndExtractPackages file w d;
      waitAll tasks' w d
  end.

(** What a task prints: the name of its file, then what its lines print. *)
Definition readFilePrints (file content : string) : list string :=
  ("Reading file: " +:+ file)
  :: concat (map scanLinePrints (bufio.ScanLines content)).

(** What the tasks have printed when the wait is over, task by task in the
    order of their dispatch; the program may interleave the lines of
    different tasks. *)
Definition waitAllPrints (tasks : list string) (w : World) : list string :=
  concat (map (fun file =>
                 match os.Open file w with
                 | inl content => readFilePrints file content
                 | inr _ => []
                 end) tasks).

(** ** The pruner *)

(** What [createDepsToRemoveList] prints: a line for every key of the
    table, whatever its flag. *)
Definition createDepsToRemoveListPrints (d : Dependency) : list string :=
  map (fun k => "Removing Package: " +:+ k) (rangeKeys (mp d)).

(** [createDepsToRemoveList], the list it returns. *)
Definition createDepsToRemoveList (d : Dependency) : list string :=
  foldl (fun depsToRemove '(k, v) =>
           if negb v then depsToRemove ++ [k] else depsToRemove)
        [] (map_to_list (mp d)).

(** The inner loop of [createNewPackageJsonFile]: it stops at the first
    name the line contains. *)
Fixpoint shouldWrite (line : string) (depsToRemove : list string) : bool :=
  match depsToRemove with
  | [] => true
  | dep :: depsToRemove' =>
      if Contains line dep then false else shouldWrite line depsToRemove'
  end.

(** What the writer has received after the lines [lines]. *)
Fixpoint copyLines (depsToRemove : list string) (lines : list string)
    : string :=
  match lines with
  | [] => ""
  | line :: lines' =>
      if shouldWrite line depsToRemove
      then (line +:+ String "010"%char "") +:+ copyLines depsToRemove lines'
      else copyLines depsToRemove lines'
  end.

(** [createNewPackageJsonFile]; [jsonFile] is the content behind the open
    manifest. *)
Definition createNewPackageJsonFile (depsToRemove : list string)
    (jsonFile : string) (w : World) : Outcome World :=
  w ← orFatal (os.Create "newPackage.json" w);
  let written := copyLines depsToRemove (bufio.ScanLines jsonFile) in
  Ok (setFiles (<["newPackage.json" := written]> (files w)) w).

(** [removeTrailingCommas] *)
Definition removeTrailingCommas (w : World) : Outcome World :=
  data ← orFatal (os.ReadFile "newPackage.json" w);
  let json := ReplaceAllString data in
  orFatal (os.WriteFile "newPackage.json" json w).

(** [deleteDepsFromPackageJSON]: the results of both [os.Rename] are
    dropped. *)
Definition deleteDepsFromPackageJSON (depsToRemove : list string)
    (w : World) : Outcome World :=
  jsonFile ← orFatal (os.Open "package.json" w);
  w ← createNewPackageJsonFile depsToRemove jsonFile w;
  w ← removeTrailingCommas w;
  let '(w, _) := os.Rename "package.json" "oldpackage.json" w in
  let '(w, _) := os.Rename "newPackage.json" "package.json" w in
  Ok w.

(** ** The driver *)

(** [main] from the return of [filepath.Walk] on. *)
Definition afterWalk (err : option error) (tasks : list string)
    (w : World) (d : Dependency) : Outcome World :=
  let w :=
    match err with
    | Some e =>
        Println ("Error scanning the directory " +:+ errorText e +:+ ":") w
    | None => w
    end in
  d ← waitAll tasks w d;
  let w := PrintAll (waitAllPrints tasks w) w in
  let w := Println "Finished walking the directory" w in
  let depsToRemove := createDepsToRemoveList d in
  let w := PrintAll (createDepsToRemoveListPrints d) w in
  w ← deleteDepsFromPackageJSON depsToRemove w;
  let w := Println "Program Complete...." w in
  let w := Println "Package.json has been changed." w in
  Ok (Println "Refer to oldpackage.json for the old original file." w).

Definition main (w : World) : Outcome World :=
  let d := {| mp := ∅ |} in
  '(w, d) ← readPackages w d;
  '(err, tasks) ← Walk "." scanDir w;
  afterWalk err tasks w d.

End Program.

(** The loop of [walk] over the entries of the directory at [path]. *)
Definition walkEntries (fn : WalkFunc) (path : string)
    : list FsNode -> list string -> Outcome (option error * list string) :=
  fix walkNames (names : list FsNode) (tasks : list string) :=
    match names with
    | [] => Ok (None, tasks)
    | child :: names' =>
        let filename := Join path (nodeName child) in
        '(err, tasks) ← walk fn filename child tasks;
        match err, child with
        | None, _ => walkNames names' tasks
        | Some e, NoStat _ =>
            if isSkipDir e then walkNames names' tasks
            else Ok (Some e, tasks)
        | Some e, Dir _ _ _ =>
            if isSkipDir e then walkNames names' tasks
            else Ok (Some e, tasks)
        | Some e, File _ => Ok (Some e, tasks)
        end
    end.

(** * The vocabulary of the properties *)

(** [t] occurs in [s]. *)
Definition Substring (t s : string) : Prop :=
  exists pre post, s = pre +:+ t +:+ post.

(** Every byte of [s] is in the class [f]. *)
Fixpoint every (f : ascii -> bool) (s : string) : bool :=
  match s with
  | EmptyString => true
  | String c s' => f c && every f s'
  end.

(** The pattern in words: the keyword [kw], white space (possibly none), a
    quote, a name of one byte or more without a quote, and a quote.  [text]
    is such a clause and [name] the name in it. *)
Definition ImportClause (kw text name : string) : Prop :=
  exists ws q1 q2,
    every isSpace ws = true
    /\ isQuote q1 = true /\ isQuote q2 = true
    /\ name <> ""
    /\ every (fun c => negb (isQuote c)) name = true
    /\ text = kw +:+ ws +:+ String q1 (name +:+ String q2 "").

(** [m] is a match of the pattern of [handleImportCase]: its text is a
    clause of the first alternative with the name in the first group, or of
    the second with the name in the second group, the other group being
    empty. *)
Definition IsImportMatch (m : Submatch) : Prop :=
  (ImportClause "from" (whole m) (group1 m) /\ group2 m = "")
  \/ (ImportClause "import" (whole m) (group2 m) /\ group1 m = "").

(** The matches of the pattern in [s] from left to right: each one is the
    match that starts first in what is left behind the one before, and
    behind the last there is none. *)
Inductive LeftmostMatches : string -> list Submatch -> Prop :=
| LM_nil s :
    (forall pre m post, IsImportMatch m -> s <> pre +:+ whole m +:+ post) ->
    LeftmostMatches s []
| LM_cons pre m post ms :
    IsImportMatch m ->
    (forall pre' m' post',
       IsImportMatch m' ->
       pre +:+ whole m +:+ post = pre' +:+ whole m' +:+ post' ->
       len pre <= len pre') ->
    LeftmostMatches post ms ->
    LeftmostMatches (pre +:+ whole m +:+ post) (m :: ms).

(** What one piece behind the first does to the table. *)
Definition requirePiece (d : Dependency) (v : string) : Dependency :=
  if HasPrefix v "." then d
  else markModuleAsFound (TrimSuffix v requireClose) d.

(** The arguments of the calls of [markModuleAsFound] that
    [handleRequireCase] makes, in their order. *)
Definition requireCalls (line : string) : list string :=
  map (fun v => TrimSuffix v requireClose)
      (filter (fun v => HasPrefix v "." = false)
              (tail (Split line requireOpen))).

Definition importCalls (line : string) : list string :=
  map importName (FindAllStringSubmatch line).

(** The calls [scanLineAndExtractPkgs] makes for a line. *)
Definition lineCalls (line : string) : list string :=
  (if Contains line "require" then requireCalls line else [])
  ++ (if Contains line "import" then importCalls line else []).

(** The line feed the writer puts behind every line. *)
Definition lf : string := String "010"%char "".

(** The lines [lines], each followed by a line feed. *)
Definition joinLines (lines : list string) : string :=
  foldr (fun line rest => (line +:+ lf) +:+ rest) "" lines.

(** [s] has no comma that is followed, after white space, by a closing
    brace. *)
Definition NoCommaBrace (s : string) : Prop :=
  forall pre ws post,
    every isSpace ws = true ->
    s <> pre +:+ String ","%char (ws +:+ String "}"%char post).

(** Induction on a tree with the property at hand for every entry of a
    directory. *)
Fixpoint FsNode_entries_ind (P : FsNode -> Prop)
    (HFile : forall name, P (File name))
    (HDir : forall name listable entries,
        Forall P entries -> P (Dir name listable entries))
    (HNoStat : forall name, P (NoStat name))
    (node : FsNode) : P node :=
  match node with
  | File name => HFile name
  | NoStat name => HNoStat name
  | Dir name listable entries =>
      HDir name listable entries
        ((fix all (l : list FsNode) : Forall P l :=
            match l with
            | [] => @List.Forall_nil FsNode P
            | child :: l' =>
                @List.Forall_cons FsNode P child l'
                  (FsNode_entries_ind P HFile HDir HNoStat child) (all l')
            end) entries)
  end.

(** Every entry of the tree has an [Lstat]. *)
Fixpoint statable (node : FsNode) : bool :=
  match node with
  | File _ => true
  | NoStat _ => false
  | Dir _ _ entries => forallb statable entries
  end.

(** The files of the tree at [path] that lie under no excluded path and
    under no directory that cannot be listed, in the order of the walk. *)
Fixpoint eligible (path : string) (node : FsNode) : list string :=
  match node with
  | File _ =>
      match filesToExclude !! path with
      | Some _ => []
      | None => [path]
      end
  | NoStat _ => []
  | Dir _ listable entries =>
      match filesToExclude !! path with
      | Some _ => []
      | None =>
          if listable
          then flat_map
                 (fun child => eligible (Join path (nodeName child)) child)
                 entries
          else []
      end
  end.

(** What [scanDir] returns for an entry with an [Lstat]: [SkipDir] for an
    excluded directory and nil otherwise. *)
Definition verdict (path : string) (node : FsNode) : option error :=
  match filesToExclude !! path, node with
  | Some _, Dir _ _ _ => Some SkipDir
  | _, _ => None
  end.

(** [s] without its commas and its white space. *)
Fixpoint withoutCommasAndSpaces (s : string) : string :=
  match s with
  | EmptyString => EmptyString
  | String c s' =>
      if Ascii.eqb c ","%char || isSpace c then withoutCommasAndSpaces s'
      else String c (withoutCommasAndSpaces s')
  end.

(** The last byte of [line] is not a carriage return. *)
Fixpoint noTrailingCR (line : string) : bool :=
  match line with
  | EmptyString => true
  | String c EmptyString => negb (Ascii.eqb c "013"%char)
  | String _ line' => noTrailingCR line'
  end.

(** [line] has no line feed. *)
Definition noLF (line : string) : bool :=
  every (fun c => negb (Ascii.eqb c "010"%char)) line.





(** [line] has fewer than [MaxScanTokenSize] bytes. *)
Definition shortLine (line : string) : bool :=
  (N.of_nat (len line) <? bufio.MaxScanTokenSize)%N.

(** [file] can be opened in [w]. *)
Definition opens (w : World) (file : string) : Prop :=
  exists content, os.Open file w = inl content.

(** A recogniser for the texts built from objects and strings of ASCII
    without escapes, in the grammar of JSON: a value is a string or an
    object, an object a pair of braces around members separated by commas,
    a member a string, a colon and a value, with white space (space, tab,
    line feed, carriage return) between the tokens.  Every text it accepts
    is valid JSON. *)
Module Json.

Definition isWs (c : ascii) : bool :=
  match c with
  | " " | "009" | "010" | "013" => true
  | _ => false
  end%char.

Fixpoint skipWs (s : string) : string :=
  match s with
  | String c s' => if isWs c then skipWs s' else s
  | EmptyString => EmptyString
  end.

(** The rest behind the closing quote of a string, the opening quote
    having been read. *)
Fixpoint afterString (s : string) : option string :=
  match s with
  | EmptyString => None
  | String c s' =>
      if Ascii.eqb c dquote then Some s'
      else if Ascii.eqb c "\"%char then None
      else if (nat_of_ascii c <? 32)%nat then None
      else if (127 <? nat_of_ascii c)%nat then None
      else afterString s'
  end.

Fixpoint afterValue (fuel : nat) (s : string) : option string :=
  match fuel, s with
  | S fuel', String c s' =>
      if Ascii.eqb c dquote then afterString s'
      else if Ascii.eqb c "{"%char then
        match skipWs s' with
        | String "}"%char rest => Some rest
        | members => afterMembers fuel' members
        end
      else None
  | _, _ => None
  end
with afterMembers (fuel : nat) (s : string) : option string :=
  match fuel, s with
  | S fuel', String c s' =>
      if Ascii.eqb c dquote then
        match option_map skipWs (afterString s') with
        | Some (String ":"%char value) =>
            match option_map skipWs (afterValue fuel' (skipWs value)) with
            | Some (String ","%char more) => afterMembers fuel' (skipWs more)
            | Some (String "}"%char rest) => Some rest
            | _ => None
            end
        | _ => None
        end
      else None
  | _, _ => None
  end.

Definition valid (s : string) : bool :=
  match option_map skipWs (afterValue (len s) (skipWs s)) with
  | Some EmptyString => true
  | _ => false
  end.

End Json.

#[global] Instance IoOp_eq_dec : EqDecision IoOp.
Proof. solve_decision. Defined.

(** ** Sample projects *)

Module Sample.

(** [s] between double quotes. *)
Definition quoted (s : string) : string :=
  String dquote (s +:+ String dquote "").

(** A manifest with two dependencies and a script. *)
Definition manifestLines : list string :=
  [ "{";
    "  " +:+ quoted "scripts" +:+ ": {";
    "    " +:+ quoted "build" +:+ ": " +:+ quoted "tsc -p .";
    "  },";
    "  " +:+ quoted "dependencies" +:+ ": {";
    "    " +:+ quoted "lodash" +:+ ": " +:+ quoted "^4" +:+ ",";
    "    " +:+ quoted "chalk" +:+ ": " +:+ quoted "^5";
    "  }";
    "}" ].

Definition manifest : string := joinLines manifestLines.

Definition pkg : Package :=
  {| Scripts := {[ "build" := "tsc -p ." ]};
     Dependencies := {[ "lodash" := "^4"; "chalk" := "^5" ]};
     DevDependencies := ∅ |}.

(** A decoder that knows this manifest and rejects everything else. *)
Definition decode (data : string) : Package * option error :=
  if String.eqb data manifest then (pkg, None)
  else ({| Scripts := ∅; Dependencies := ∅; DevDependencies := ∅ |},
        Some (OsError "invalid character")).

Definition indexLine : string :=
  "const _ = " +:+ requireOpen +:+ "lodash" +:+ requireClose.

Definition world : World :=
  {| files := {[ "package.json" := manifest;
                 "index.js" := indexLine +:+ lf ]};
     tree := Dir "." true [File "index.js"; File "package.json"];
     refused := fun _ => false;
     stdout := [] |}.

End Sample.

Module Faulty.

(** The sample project with a directory that cannot be listed; the file in
    it is the only one that refers to [chalk]. *)
Definition unlistable (listable : bool) : World :=
  {| files := {[ "package.json" := Sample.manifest;
                 "index.js" := Sample.indexLine +:+ lf;
                 "lib/util.js" :=
                   ("const c = " +:+ requireOpen +:+ "chalk" +:+ requireClose)
                   +:+ lf ]};
     tree := Dir "." true
               [File "index.js";
                Dir "lib" listable [File "util.js"];
                File "package.json"];
     refused := fun _ => false;
     stdout := [] |}.

(** The manifest of the sample without the line of [chalk], after the
    repair of the comma. *)
Definition withoutChalk : string :=
  joinLines
    [ "{";
      "  " +:+ Sample.quoted "scripts" +:+ ": {";
      "    " +:+ Sample.quoted "build" +:+ ": " +:+ Sample.quoted "tsc -p .";
      "  },";
      "  " +:+ Sample.quoted "dependencies" +:+ ": {";
      "    " +:+ Sample.quoted "lodash" +:+ ": " +:+ Sample.quoted "^4" +:+ "}";
      "}" ].

(** A manifest that is not valid, and a world in which nothing refers to
    any package. *)
Definition broken : World :=
  {| files := {[ "package.json" := "{ not json" +:+ lf ]};
     tree := Dir "." true [File "package.json"];
     refused := fun _ => false;
     stdout := [] |}.

(** The sample project in a directory where the manifest cannot be renamed
    to the backup name. *)
Definition noBackup : World :=
  {| files := files Sample.world;
     tree := tree Sample.world;
     refused := fun op =>
       bool_decide (op = OpRename "package.json" "oldpackage.json");
     stdout := [] |}.

End Faulty.

Module CommaInString.

(** A manifest whose script has a comma before a closing brace inside its
    command. *)
Definition manifest : string :=
  joinLines
    [ "{";
      "  " +:+ Sample.quoted "scripts" +:+ ": {";
      "    " +:+ Sample.quoted "fmt" +:+ ": " +:+ Sample.quoted "echo {a,}";
      "  }";
      "}" ].

Definition repaired : string :=
  joinLines
    [ "{";
      "  " +:+ Sample.quoted "scripts" +:+ ": {";
      "    " +:+ Sample.quoted "fmt" +:+ ": " +:+ Sample.quoted "echo {a}";
      "  }";
      "}" ].

Definition world : World :=
  {| files := {[ "package.json" := manifest ]};
     tree := Dir "." true [File "package.json"];
     refused := fun _ => false;
     stdout := [] |}.

End CommaInString.

Module OverLong.

(** A line of [MaxScanTokenSize] bytes. *)
Definition longLine : string :=
  N.iter bufio.MaxScanTokenSize (String "a"%char) "".

(** A manifest whose second line is too long for the scanner. *)
Definition manifest : string :=
  joinLines
    [ "{";
      "  " +:+ Sample.quoted "description" +:+ ": "
           +:+ Sample.quoted longLine;
      "}" ].

Definition world : World :=
  {| files := {[ "package.json" := manifest ]};
     tree := Dir "." true [File "package.json"];
     refused := fun _ => false;
     stdout := [] |}.

End OverLong.

Module MultiLineImport.

(** The last line of an import that is spread over several lines. *)
Definition lastLine : string := "} from 'lodash';".

Definition table : Dependency := {| mp := {[ "lodash" := false ]} |}.

End MultiLineImport.

(** * Properties *)

(** ** Strings *)

Section StringFacts.

Implicit Types s t u : string.

Lemma app_cons c s t : String c s +:+ t = String c (s +:+ t).
Proof. reflexivity. Qed.

Lemma app_empty_l s : "" +:+ s = s.
Proof. reflexivity. Qed.

Lemma app_empty_r s : s +:+ "" = s.
Proof. induction s as [|c s IH]; [done|]. by rewrite app_cons, IH. Qed.

Lemma app_assoc s t u : (s +:+ t) +:+ u = s +:+ t +:+ u.
Proof. induction s as [|c s IH]; [done|]. by rewrite !app_cons, IH. Qed.

Lemma len_app s t : len (s +:+ t) = len s + len t.
Proof.
  induction s as [|c s IH]; [done|].
  rewrite app_cons. unfold len in *. simpl. by rewrite IH.
Qed.

Lemma len_cons c s : len (String c s) = S (len s).
Proof. reflexivity. Qed.

Lemma of_list_app (l k : list ascii) :
  string_of_list_ascii (l ++ k)
  = string_of_list_ascii l +:+ string_of_list_ascii k.
Proof. induction l as [|c l IH]; [done|]. simpl. by rewrite IH. Qed.

Lemma HasPrefix_spec s p : HasPrefix s p = true <-> exists r, s = p +:+ r.
Proof.
  revert s. induction p as [|c p IH]; intros s; simpl.
  - split; [intros _; by exists s | done].
  - destruct s as [|a s]; [split; [done | by intros [r Hr]]|].
    destruct (Ascii.eqb_spec a c) as [->|Hne].
    + rewrite IH. split; intros [r Hr]; exists r.
      * by rewrite app_cons, Hr.
      * rewrite app_cons in Hr. by injection Hr.
    + split; [done|]. intros [r Hr]. rewrite app_cons in Hr.
      injection Hr as Hc _. by destruct Hne.
Qed.

Lemma HasPrefix_app p r : HasPrefix (p +:+ r) p = true.
Proof. apply HasPrefix_spec. by exists r. Qed.

Lemma Contains_spec s t : Contains s t = true <-> Substring t s.
Proof.
  induction s as [|c s IH].
  - simpl. rewrite orb_false_r, HasPrefix_spec. split.
    + intros [r Hr]. by exists "", r.
    + intros [pre [post H]]. destruct pre; [by exists post|].
      by rewrite app_cons in H.
  - cbn [Contains]. rewrite orb_true_iff, IH, HasPrefix_spec. split.
    + intros [[r Hr]|[pre [post H]]].
      * by exists "", r.
      * exists (String c pre), post. by rewrite app_cons, H.
    + intros [pre [post H]]. destruct pre as [|a pre].
      * left. by exists post.
      * right. rewrite app_cons in H. injection H as _ H.
        by exists pre, post.
Qed.

Lemma Contains_false s t : Contains s t = false <-> ~ Substring t s.
Proof. rewrite <- Contains_spec. by destruct (Contains s t). Qed.

Lemma Substring_refl s : Substring s s.
Proof. exists "", "". by rewrite app_empty_r. Qed.

Lemma Substring_trans s t u : Substring s t -> Substring t u -> Substring s u.
Proof.
  intros [p1 [q1 ->]] [p2 [q2 ->]]. exists (p2 +:+ p1), (q1 +:+ q2).
  by rewrite !app_assoc.
Qed.

Lemma Substring_app_l s t u : Substring s t -> Substring s (u +:+ t).
Proof.
  intros [p [q ->]]. exists (u +:+ p), q. by rewrite !app_assoc.
Qed.

Lemma Substring_app_r s t u : Substring s t -> Substring s (t +:+ u).
Proof.
  intros [p [q ->]]. exists p, (q +:+ u). by rewrite !app_assoc.
Qed.

Lemma slice_app n s : sliceTo n s +:+ sliceFrom n s = s.
Proof.
  revert s. induction n as [|n IH]; intros [|c s]; simpl; try done.
  by rewrite app_cons, IH.
Qed.

Lemma sliceFrom_app s t : sliceFrom (len s) (s +:+ t) = t.
Proof. induction s as [|c s IH]; [by destruct t|]. by rewrite app_cons. Qed.

Lemma sliceTo_app s t : sliceTo (len s) (s +:+ t) = s.
Proof.
  induction s as [|c s IH]; [by destruct t|].
  rewrite app_cons. simpl. by rewrite IH.
Qed.

Lemma TrimSuffix_prefix s suffix : exists r, s = TrimSuffix s suffix +:+ r.
Proof.
  unfold TrimSuffix. destruct (HasSuffix s suffix).
  - eexists. symmetry. apply slice_app.
  - exists "". by rewrite app_empty_r.
Qed.

End StringFacts.

(** ** The usage table *)

Section UsageTable.

Implicit Types d : Dependency.

Lemma markModuleAsFound_lookup name d k :
  mp (markModuleAsFound name d) !! k
  = if decide (k = name) then (fun _ => true) <$> mp d !! k else mp d !! k.
Proof.
  unfold markModuleAsFound. case_decide as Hk.
  - subst k. destruct (mp d !! name) eqn:E; simpl.
    + by rewrite lookup_insert_eq.
    + by rewrite E.
  - destruct (mp d !! name) eqn:E; simpl; [|done].
    by rewrite lookup_insert_ne.
Qed.

Lemma Dependency_eq d1 d2 : mp d1 = mp d2 -> d1 = d2.
Proof. destruct d1, d2; simpl; by intros ->. Qed.

Lemma markAll_cons n names d :
  markAll (n :: names) d = markAll names (markModuleAsFound n d).
Proof. reflexivity. Qed.

Lemma markAll_app l k d : markAll (l ++ k) d = markAll k (markAll l d).
Proof. unfold markAll. by rewrite foldl_app. Qed.

Lemma markAll_lookup names d k :
  mp (markAll names d) !! k
  = (fun b => b || bool_decide (k ∈ names)) <$> mp d !! k.
Proof.
  revert d. induction names as [|n names IH]; intros d.
  - simpl. destruct (mp d !! k) as [b|]; simpl; [|done].
    by rewrite orb_false_r.
  - rewrite markAll_cons, IH, markModuleAsFound_lookup.
    destruct (decide (k = n)) as [->|Hk].
    + destruct (mp d !! n) as [b|]; simpl; [|done].
      rewrite bool_decide_true by (by left). by rewrite orb_true_r.
    + destruct (mp d !! k) as [b|]; simpl; [|done]. do 2 f_equal.
      apply bool_decide_ext. rewrite elem_of_cons. intuition congruence.
Qed.

End UsageTable.

(** C9. The set of keys of the usage table is the same after every run of
    [markModuleAsFound] calls: a call sets the entry of a key that is there
    to [true] and leaves the table as it is for a name that is not a key
    (no error, no new key), so each flag stays or goes from [false] to
    [true]: after the run the flag of a key is its old flag or-ed with
    whether the key was among the names. *)
Theorem markModuleAsFound_keeps_keys (names : list string) (d : Dependency) :
  dom (mp (markAll names d)) = dom (mp d)
  /\ (forall name k,
        mp (markModuleAsFound name d) !! k
        = if decide (k = name) then (fun _ => true) <$> mp d !! k
          else mp d !! k)
  /\ (forall name, mp d !! name = None -> markModuleAsFound name d = d)
  /\ (forall k,
        mp (markAll names d) !! k
        = (fun b => b || bool_decide (k ∈ names)) <$> mp d !! k).
Proof.
  split; [|split; [|split]].
  - apply set_eq. intros k. rewrite !elem_of_dom, markAll_lookup.
    by rewrite fmap_is_Some.
  - intros. apply markModuleAsFound_lookup.
  - intros name H. unfold markModuleAsFound. by rewrite H.
  - intros. apply markAll_lookup.
Qed.

(** ** The filtered copy of the pruner *)

Section FilteredCopy.

Implicit Types line dep : string.
Implicit Types depsToRemove : list string.

Lemma shouldWrite_spec line depsToRemove :
  shouldWrite line depsToRemove = true
  <-> forall dep, dep ∈ depsToRemove -> ~ Substring dep line.
Proof.
  induction depsToRemove as [|dep deps IH]; simpl.
  - split; [|done]. intros _ dep H. by apply elem_of_nil in H.
  - destruct (Contains line dep) eqn:E.
    + split; [done|]. intros H. exfalso.
      apply (H dep); [by left|]. by apply Contains_spec.
    + rewrite IH. apply Contains_false in E. split.
      * intros H x Hx. apply elem_of_cons in Hx as [->|Hx]; auto.
      * intros H x Hx. apply H. by right.
Qed.

Lemma copyLines_filter depsToRemove lines :
  copyLines depsToRemove lines
  = joinLines
      (filter (fun line => shouldWrite line depsToRemove = true) lines).
Proof.
  induction lines as [|line lines IH]; [done|].
  cbn [copyLines]. rewrite filter_cons.
  destruct (shouldWrite line depsToRemove) eqn:E.
  - rewrite decide_True by done. cbn [joinLines foldr]. by rewrite IH.
  - rewrite decide_False by done. apply IH.
Qed.

End FilteredCopy.

(** ** The scanner and the lines of a text *)

Section Rescan.

Implicit Types line s rest : string.
Implicit Types cur : list ascii.
Implicit Types held : N.

Lemma dropCR_other c cur :
  c <> "013"%char ->
  bufio.dropCR (c :: cur) = string_of_list_ascii (rev (c :: cur)).
Proof.
  intros Hc. unfold bufio.dropCR.
  destruct c as [[] [] [] [] [] [] [] []]; try reflexivity. by destruct Hc.
Qed.

Lemma noTrailingCR_last c line :
  noTrailingCR (String c line) = true ->
  exists x t,
    rev (list_ascii_of_string (String c line)) = x :: t /\ x <> "013"%char.
Proof.
  revert c. induction line as [|c' line IH]; intros c H.
  - exists c, []. split; [done|]. simpl in H.
    apply negb_true_iff in H. by apply Ascii.eqb_neq.
  - destruct (IH c' H) as (x & t & E & Hx).
    exists x, (t ++ [c]). split; [|done].
    change (list_ascii_of_string (String c (String c' line)))
      with (c :: list_ascii_of_string (String c' line)).
    cbn [rev]. by rewrite E.
Qed.

Lemma dropCR_line line :
  noTrailingCR line = true ->
  bufio.dropCR (rev (list_ascii_of_string line)) = line.
Proof.
  intros H. destruct line as [|c line]; [done|].
  destruct (noTrailingCR_last _ _ H) as (x & t & E & Hx).
  rewrite E, dropCR_other by done. rewrite <- E, rev_involutive.
  apply string_of_list_ascii_of_string.
Qed.

Lemma every_of_list f (l : list ascii) :
  every f (string_of_list_ascii l) = forallb f l.
Proof. induction l as [|c l IH]; [done|]. simpl. by rewrite IH. Qed.

Lemma noLF_dropCR cur :
  forallb (fun c => negb (Ascii.eqb c "010"%char)) cur = true ->
  noLF (bufio.dropCR cur) = true.
Proof.
  intros H. unfold noLF.
  assert (forall l,
            forallb (fun c => negb (Ascii.eqb c "010"%char)) l = true ->
            every (fun c => negb (Ascii.eqb c "010"%char))
                  (string_of_list_ascii (rev l)) = true) as Hrev.
  { intros l Hl. rewrite every_of_list, forallb_forall.
    intros x Hx%in_rev. by apply (proj1 (forallb_forall _ _) Hl). }
  destruct cur as [|c cur]; [done|].
  destruct (Ascii.eqb_spec c "013"%char) as [->|Hc].
  - simpl. simpl in H. by apply Hrev.
  - rewrite dropCR_other by done. by apply Hrev.
Qed.

Lemma scanLinesFrom_line held cur line rest :
  noLF line = true ->
  (held + N.of_nat (len line) < bufio.MaxScanTokenSize)%N ->
  bufio.scanLinesFrom held cur (line +:+ String "010"%char rest)
  = bufio.dropCR (rev (list_ascii_of_string line) ++ cur)
      :: bufio.scanLinesFrom 0 [] rest.
Proof.
  revert held cur.
  induction line as [|c line IH]; intros held cur H Hlen; [done|].
  unfold noLF in H. simpl in H. apply andb_true_iff in H as [Hc Hl].
  rewrite app_cons. cbn [bufio.scanLinesFrom].
  apply negb_true_iff in Hc. rewrite Hc.
  unfold len in *. cbn [String.length] in Hlen.
  destruct (N.leb_spec bufio.MaxScanTokenSize (held + 1)) as [Hfull|_];
    [lia|].
  rewrite IH by (done || lia). simpl. by rewrite <- List.app_assoc.
Qed.


Lemma ScanLines_joinLines lines :
  Forall (fun line => noLF line = true /\ noTrailingCR line = true
                      /\ shortLine line = true) lines ->
  bufio.ScanLines (joinLines lines) = lines.
Proof.
  unfold bufio.ScanLines.
  induction 1 as [|line lines (H1 & H2 & H3) _ IH]; [done|].
  cbn [joinLines foldr]. unfold lf at 1.
  rewrite app_assoc, app_cons, app_empty_l.
  unfold shortLine in H3. apply N.ltb_lt in H3.
  rewrite scanLinesFrom_line by (done || lia).
  rewrite app_nil_r, dropCR_line by done.
  f_equal. exact IH.
Qed.


Lemma scanLinesFrom_noLF held cur s :
  forallb (fun c => negb (Ascii.eqb c "010"%char)) cur = true ->
  Forall (fun line => noLF line = true) (bufio.scanLinesFrom held cur s).
Proof.
  revert held cur. induction s as [|c s IH]; intros held cur H.
  - simpl. destruct cur; [done|].
    apply Forall_cons. split; [by apply noLF_dropCR|done].
  - cbn [bufio.scanLinesFrom]. destruct (Ascii.eqb c "010"%char) eqn:E.
    + apply Forall_cons. split; [by apply noLF_dropCR|by apply IH].
    + destruct (bufio.MaxScanTokenSize <=? held + 1)%N; [done|].
      apply IH. simpl. by rewrite E.
Qed.

Lemma len_of_list (l : list ascii) :
  len (string_of_list_ascii l) = length l.
Proof. unfold len. induction l as [|c l IH]; [done|]. simpl. by rewrite IH. Qed.

Lemma len_dropCR cur : len (bufio.dropCR cur) <= length cur.
Proof.
  assert (forall l, len (string_of_list_ascii (rev l)) = length l) as Hrev.
  { intros l. by rewrite len_of_list, length_rev. }
  destruct cur as [|c cur]; [done|].
  destruct (Ascii.eqb_spec c "013"%char) as [->|Hc].
  - change (bufio.dropCR ("013"%char :: cur))
      with (string_of_list_ascii (rev cur)).
    rewrite Hrev. simpl. lia.
  - rewrite dropCR_other by done. by rewrite Hrev.
Qed.

(** Every line the scanner yields is shorter than [MaxScanTokenSize]. *)
Lemma scanLinesFrom_short held cur s :
  held = N.of_nat (length cur) ->
  (held < bufio.MaxScanTokenSize)%N ->
  Forall (fun line => shortLine line = true) (bufio.scanLinesFrom held cur s).
Proof.
  assert (forall cur,
            (N.of_nat (length cur) < bufio.MaxScanTokenSize)%N ->
            shortLine (bufio.dropCR cur) = true) as Hdrop.
  { intros l Hl. unfold shortLine. apply N.ltb_lt.
    pose proof (len_dropCR l). lia. }
  revert held cur. induction s as [|c s IH]; intros held cur -> Hlt.
  - simpl. destruct cur as [|x cur]; [done|].
    apply Forall_cons. split; [by apply Hdrop|done].
  - cbn [bufio.scanLinesFrom]. destruct (Ascii.eqb c "010"%char).
    + apply Forall_cons. split; [by apply Hdrop|by apply IH].
    + destruct (N.leb_spec bufio.MaxScanTokenSize
                  (N.of_nat (length cur) + 1)) as [_|Hroom]; [done|].
      apply IH; [simpl; lia|lia].
Qed.


End Rescan.




(** Removing [react] also drops the line of [react-router]. *)
Example react_router_dropped :
  copyLines ["react"]
    [ "    " +:+ Sample.quoted "react-router" +:+ ": "
             +:+ Sample.quoted "^6" +:+ ",";
      "    " +:+ Sample.quoted "redux" +:+ ": " +:+ Sample.quoted "^5" ]
  = ("    " +:+ Sample.quoted "redux" +:+ ": " +:+ Sample.quoted "^5") +:+ lf.
Proof. reflexivity. Qed.

(** ** Require-style extraction *)

Section RequireCase.

Implicit Types d : Dependency.

Lemma requireLoop_S i pkgs d :
  requireLoop (S i) pkgs d = foldl requirePiece d pkgs.
Proof.
  revert i d. induction pkgs as [|v pkgs IH]; intros i d; [done|].
  cbn [requireLoop foldl]. rewrite IH. f_equal.
  unfold requireBody, requirePiece. cbn [Nat.eqb].
  by destruct (HasPrefix v ".").
Qed.

Lemma splitFrom_nonempty sep skip cur s : splitFrom sep skip cur s <> [].
Proof.
  revert skip cur. induction s as [|c s IH]; intros skip cur; [done|].
  cbn [splitFrom]. destruct skip; [|apply IH].
  destruct (HasPrefix (String c s) sep); [done | apply IH].
Qed.

End RequireCase.

Section SplitFacts.

Implicit Types s sep a b : string.

Lemma splitFrom_skip sep t cur s :
  splitFrom sep (len t) cur (t +:+ s) = splitFrom sep 0 cur s.
Proof.
  induction t as [|c t IH]; [by destruct s|].
  rewrite app_cons, len_cons. exact IH.
Qed.

Lemma splitFrom_no_sep sep cur s :
  ~ Substring sep s ->
  splitFrom sep 0 cur s = [string_of_list_ascii (rev cur) +:+ s].
Proof.
  revert cur. induction s as [|c s IH]; intros cur Hno.
  - simpl. by rewrite app_empty_r.
  - cbn [splitFrom].
    destruct (HasPrefix (String c s) sep) eqn:E.
    + destruct Hno. apply HasPrefix_spec in E as [r ->].
      exists "", r. by rewrite app_empty_l.
    + rewrite IH.
      * simpl. by rewrite of_list_app, app_assoc.
      * intros H. apply Hno. by apply (Substring_app_l _ _ (String c "")).
Qed.

(** A line without the separator is one piece. *)
Lemma Split_no_sep s sep : ~ Substring sep s -> Split s sep = [s].
Proof. intros H. unfold Split. by rewrite splitFrom_no_sep. Qed.

Lemma prefix_of_app x b p r :
  x +:+ b = p +:+ r -> len p <= len x -> exists post, x = p +:+ post.
Proof.
  revert x. induction p as [|c p IH]; intros x E Hlen; [by exists x|].
  destruct x as [|a x]; [simpl in Hlen; lia|].
  rewrite !app_cons in E. injection E as -> E.
  rewrite !len_cons in Hlen. destruct (IH x E) as [post ->]; [lia|].
  by exists post.
Qed.

Lemma splitFrom_first sep cur a b :
  sep <> "" ->
  (forall pre post, a +:+ sep = pre +:+ sep +:+ post -> post = "") ->
  splitFrom sep 0 cur (a +:+ sep +:+ b)
  = (string_of_list_ascii (rev cur) +:+ a) :: splitFrom sep 0 [] b.
Proof.
  intros Hsep. revert cur. induction a as [|c a IH]; intros cur Hleft.
  - rewrite app_empty_l, app_empty_r.
    destruct sep as [|c t]; [done|].
    rewrite app_cons. cbn [splitFrom].
    rewrite <- app_cons, HasPrefix_app, len_cons.
    replace (S (len t) - 1) with (len t) by lia.
    by rewrite splitFrom_skip.
  - rewrite app_cons. cbn [splitFrom].
    destruct (HasPrefix (String c (a +:+ sep +:+ b)) sep) eqn:E.
    + exfalso. apply HasPrefix_spec in E as [r E].
      rewrite <- app_cons, <- app_assoc in E.
      apply prefix_of_app in E as [post E].
      * pose proof (Hleft "" post E) as ->. rewrite app_empty_r in E.
        apply (f_equal len) in E. rewrite len_app, len_cons in E. lia.
      * rewrite len_app. lia.
    + rewrite IH.
      * simpl. by rewrite of_list_app, app_assoc.
      * intros pre post E'. apply (Hleft (String c pre) post).
        by rewrite !app_cons, E'.
Qed.

(** The first piece ends where the separator occurs first, and the rest of
    the line is split in the same way. *)
Lemma Split_first a sep b :
  sep <> "" ->
  (forall pre post, a +:+ sep = pre +:+ sep +:+ post -> post = "") ->
  Split (a +:+ sep +:+ b) sep = a :: Split b sep.
Proof. intros. unfold Split. by rewrite splitFrom_first. Qed.

End SplitFacts.

(** C7. [handleRequireCase] splits the line at the separator, the word
    require with an opening parenthesis and a double quote, and handles the
    pieces behind the first in their order: a piece that starts with a dot
    leaves the table as it is, and of any other piece the suffix made of a
    double quote, a closing parenthesis and a semicolon is trimmed and the
    result is passed to [markModuleAsFound].  The first piece ends where
    the separator occurs first and what follows it is split in the same
    way; a line without the separator is a single piece.  A require of
    [./localfile] leaves the table unchanged and a require of [lodash]
    marks [lodash]. *)
Theorem handleRequireCase_pieces (currLine : string) (d : Dependency) :
  (exists first pieces,
     Split currLine requireOpen = first :: pieces
     /\ handleRequireCase currLine d
        = foldl (fun d v =>
                   if HasPrefix v "." then d
                   else markModuleAsFound (TrimSuffix v requireClose) d)
                d pieces)
  /\ (forall a b,
        (forall pre post,
           a +:+ requireOpen = pre +:+ requireOpen +:+ post -> post = "") ->
        Split (a +:+ requireOpen +:+ b) requireOpen
        = a :: Split b requireOpen)
  /\ (forall s, ~ Substring requireOpen s -> Split s requireOpen = [s])
  /\ handleRequireCase
       ("const x = " +:+ requireOpen +:+ "./localfile" +:+ requireClose) d
     = d
  /\ handleRequireCase
       ("const _ = " +:+ requireOpen +:+ "lodash" +:+ requireClose) d
     = markModuleAsFound "lodash" d.
Proof.
  split; [|split; [|split; [|split; reflexivity]]].
  2:{ intros a b Hleft. by apply Split_first. }
  2:{ intros s Hs. by apply Split_no_sep. }
  unfold handleRequireCase.
  destruct (Split currLine requireOpen) as [|first pieces] eqn:E.
  - by apply splitFrom_nonempty in E.
  - exists first, pieces. split; [done|].
    cbn [requireLoop]. by rewrite requireLoop_S.
Qed.

(** ** Import-style extraction *)

Section ImportCase.

Implicit Types s t : string.

Lemma isQuote_not_space q : isQuote q = true -> isSpace q = false.
Proof.
  unfold isQuote. rewrite orb_true_iff.
  by intros [->%Ascii.eqb_eq | ->%Ascii.eqb_eq].
Qed.

Lemma skipSpaces_split s :
  exists ws, every isSpace ws = true /\ s = ws +:+ skipSpaces s.
Proof.
  induction s as [|c s [ws [Hws Hs]]]; [by exists ""|].
  simpl. destruct (isSpace c) eqn:E.
  - exists (String c ws). simpl. rewrite E, Hws. split; [done|].
    by rewrite app_cons, <- Hs.
  - by exists "".
Qed.

Lemma skipSpaces_app ws c s :
  every isSpace ws = true -> isSpace c = false ->
  skipSpaces (ws +:+ String c s) = String c s.
Proof.
  intros Hws Hc. induction ws as [|a ws IH].
  - simpl. by rewrite Hc.
  - simpl in Hws. apply andb_true_iff in Hws as [Ha Hws].
    rewrite app_cons. simpl. rewrite Ha. by apply IH.
Qed.

Lemma spanName_no_quote s :
  every (fun c => negb (isQuote c)) (spanName s) = true.
Proof.
  induction s as [|c s IH]; [done|]. simpl.
  destruct (isQuote c) eqn:E; [done|]. simpl. by rewrite E, IH.
Qed.

Lemma spanName_split s : s = spanName s +:+ sliceFrom (len (spanName s)) s.
Proof.
  induction s as [|c s IH]; [done|]. simpl.
  destruct (isQuote c); [done|]. rewrite app_cons. f_equal. exact IH.
Qed.

Lemma spanName_app name q s :
  every (fun c => negb (isQuote c)) name = true -> isQuote q = true ->
  spanName (name +:+ String q s) = name.
Proof.
  intros Hname Hq. induction name as [|a name IH].
  - simpl. by rewrite Hq.
  - simpl in Hname. apply andb_true_iff in Hname as [Ha Hname].
    rewrite app_cons. simpl. apply negb_true_iff in Ha. rewrite Ha.
    by rewrite IH.
Qed.

Lemma quotedName_spec s name rest :
  quotedName s = Some (name, rest)
  <-> exists ws q1 q2,
        every isSpace ws = true
        /\ isQuote q1 = true /\ isQuote q2 = true
        /\ name <> ""
        /\ every (fun c => negb (isQuote c)) name = true
        /\ s = ws +:+ String q1 (name +:+ String q2 rest).
Proof.
  split.
  - unfold quotedName. destruct (skipSpaces_split s) as [ws [Hws Hs]].
    destruct (skipSpaces s) as [|q1 r]; [done|].
    destruct (isQuote q1) eqn:Hq1; [|done].
    pose proof (spanName_split r) as Hr.
    pose proof (spanName_no_quote r) as Hn.
    destruct (spanName r) as [|a n] eqn:En; [done|].
    destruct (sliceFrom _ r) as [|q2 rest'] eqn:Er; [done|].
    destruct (isQuote q2) eqn:Hq2; [|done].
    intros [= <- <-]. exists ws, q1, q2.
    repeat split; try done. by rewrite Hs, Hr.
  - intros (ws & q1 & q2 & Hws & Hq1 & Hq2 & Hne & Hname & ->).
    unfold quotedName.
    rewrite skipSpaces_app by auto using isQuote_not_space.
    rewrite Hq1, spanName_app by done.
    destruct name as [|a n]; [done|].
    by rewrite (sliceFrom_app (String a n)), Hq2.
Qed.

End ImportCase.

Section ImportMatches.

Implicit Types s t : string.
Implicit Types m : Submatch.

Lemma keywordQuoted_spec kw s name rest :
  keywordQuoted kw s = Some (name, rest)
  <-> exists text, ImportClause kw text name /\ s = text +:+ rest.
Proof.
  unfold keywordQuoted, ImportClause. split.
  - destruct (HasPrefix s kw) eqn:E; [|done].
    apply HasPrefix_spec in E as [r ->]. rewrite sliceFrom_app.
    intros (ws & q1 & q2 & Hws & Hq1 & Hq2 & Hne & Hname & ->)%quotedName_spec.
    eexists. split; [by exists ws, q1, q2|].
    by rewrite !app_assoc, app_cons, app_assoc.
  - intros (text & (ws & q1 & q2 & Hws & Hq1 & Hq2 & Hne & Hname & ->) & ->).
    rewrite !app_assoc, HasPrefix_app, sliceFrom_app.
    apply quotedName_spec. exists ws, q1, q2.
    by rewrite app_cons, app_assoc.
Qed.

Lemma whole_slice t rest :
  sliceTo (len (t +:+ rest) - len rest) (t +:+ rest) = t.
Proof.
  rewrite len_app. replace (len t + len rest - len rest) with (len t) by lia.
  apply sliceTo_app.
Qed.

Lemma importAt_spec s m rest :
  importAt s = Some (m, rest) <-> IsImportMatch m /\ s = whole m +:+ rest.
Proof.
  unfold importAt, IsImportMatch. split.
  - destruct (keywordQuoted "from" s) as [[name r]|] eqn:E1.
    + apply keywordQuoted_spec in E1 as (text & Hc & ->).
      intros [= <- <-]. simpl. rewrite whole_slice. auto.
    + destruct (keywordQuoted "import" s) as [[name r]|] eqn:E2; [|done].
      apply keywordQuoted_spec in E2 as (text & Hc & ->).
      intros [= <- <-]. simpl. rewrite whole_slice. auto.
  - destruct m as [text g1 g2]. simpl. intros [[[Hc ->]|[Hc ->]] ->].
    + assert (keywordQuoted "from" (text +:+ rest) = Some (g1, rest)) as ->.
      { apply keywordQuoted_spec. by exists text. }
      by rewrite whole_slice.
    + assert (keywordQuoted "import" (text +:+ rest) = Some (g2, rest))
        as E by (apply keywordQuoted_spec; by exists text).
      assert (keywordQuoted "from" (text +:+ rest) = None) as ->.
      { destruct Hc as (ws & q1 & q2 & _ & _ & _ & _ & _ & ->). done. }
      by rewrite E, whole_slice.
Qed.

Lemma IsImportMatch_nonempty m : IsImportMatch m -> whole m <> "".
Proof.
  intros [[(ws & q1 & q2 & _ & _ & _ & _ & _ & ->) _]
         |[(ws & q1 & q2 & _ & _ & _ & _ & _ & ->) _]]; done.
Qed.

Lemma findAllFrom_skip t s : findAllFrom (len t) (t +:+ s) = findAllFrom 0 s.
Proof.
  induction t as [|c t IH]; [by destruct s|].
  rewrite app_cons, len_cons. exact IH.
Qed.

Lemma findAll_match s m rest :
  importAt s = Some (m, rest) ->
  findAllFrom 0 s = m :: findAllFrom 0 rest.
Proof.
  intros E. pose proof E as [Hm ->]%importAt_spec.
  pose proof (IsImportMatch_nonempty _ Hm) as Hne.
  destruct (whole m) as [|c t] eqn:Ew; [done|].
  change (String c t +:+ rest) with (String c (t +:+ rest)) in *.
  cbn [findAllFrom]. rewrite E, Ew, len_cons.
  replace (S (len t) - 1) with (len t) by lia.
  by rewrite findAllFrom_skip.
Qed.

Lemma findAll_no_match c s :
  importAt (String c s) = None ->
  findAllFrom 0 (String c s) = findAllFrom 0 s.
Proof. intros E. cbn [findAllFrom]. by rewrite E. Qed.

Lemma LeftmostMatches_shift c s ms :
  importAt (String c s) = None ->
  LeftmostMatches s ms -> LeftmostMatches (String c s) ms.
Proof.
  intros E H.
  assert (forall m post, IsImportMatch m -> String c s <> whole m +:+ post)
    as Hstart.
  { intros m post Hm Hs.
    assert (importAt (String c s) = Some (m, post)) as E'
      by by apply importAt_spec.
    congruence. }
  destruct H as [s Hnone | pre m post ms Hm Hleft Hrest].
  - apply LM_nil. intros [|a pre] m post Hm; [by apply Hstart|].
    rewrite app_cons. intros [= _ Hs]. by apply (Hnone pre m post).
  - rewrite <- app_cons. apply LM_cons; [done| |done].
    intros [|a pre'] m' post' Hm' Hs.
    + exfalso. rewrite app_cons in Hs. by apply (Hstart m' post').
    + rewrite !app_cons in Hs. injection Hs as _ Hs.
      rewrite !len_cons. apply le_n_S. by apply (Hleft pre' m' post').
Qed.

Lemma findAll_leftmost s : LeftmostMatches s (FindAllStringSubmatch s).
Proof.
  unfold FindAllStringSubmatch.
  remember (len s) as n eqn:Hn. revert s Hn.
  induction n as [n IH] using lt_wf_ind. intros s ->.
  destruct s as [|c s].
  - apply LM_nil. intros pre m post Hm Hs.
    apply IsImportMatch_nonempty in Hm.
    destruct pre; [|done]. by destruct (whole m).
  - destruct (importAt (String c s)) as [[m rest]|] eqn:E.
    + rewrite (findAll_match _ _ _ E).
      apply importAt_spec in E as [Hm Hs]. rewrite Hs.
      apply (LM_cons "" m rest); [done|intros; simpl; lia|].
      apply (IH (len rest)); [|done].
      rewrite Hs, len_app.
      apply IsImportMatch_nonempty in Hm.
      destruct (whole m); [done|]. rewrite len_cons. lia.
    + rewrite (findAll_no_match _ _ E).
      apply LeftmostMatches_shift; [done|].
      apply (IH (len s)); [rewrite len_cons; lia|done].
Qed.

Lemma importLoop_markAll ms d :
  importLoop ms d = markAll (map importName ms) d.
Proof.
  revert d. induction ms as [|m ms IH]; intros d; [done|].
  cbn [importLoop map]. by rewrite markAll_cons, IH.
Qed.

Lemma IsImportMatch_name m :
  IsImportMatch m ->
  (group1 m <> "" /\ group2 m = "" /\ importName m = group1 m)
  \/ (group1 m = "" /\ group2 m <> "" /\ importName m = group2 m).
Proof.
  unfold importName.
  intros [[(ws & q1 & q2 & _ & _ & _ & Hne & _) E]
         |[(ws & q1 & q2 & _ & _ & _ & Hne & _) E]].
  - left. by destruct (group1 m).
  - right. by rewrite E.
Qed.

Lemma LeftmostMatches_all s ms m :
  LeftmostMatches s ms -> m ∈ ms -> IsImportMatch m.
Proof.
  induction 1 as [|pre m' post ms Hm' _ _ IH]; intros Hin.
  - by apply elem_of_nil in Hin.
  - apply elem_of_cons in Hin as [->|Hin]; auto.
Qed.

End ImportMatches.

(** A match is determined by where it starts. *)
Lemma IsImportMatch_unique m1 m2 rest1 rest2 :
  IsImportMatch m1 -> IsImportMatch m2 ->
  whole m1 +:+ rest1 = whole m2 +:+ rest2 -> m1 = m2 /\ rest1 = rest2.
Proof.
  intros H1 H2 E.
  assert (importAt (whole m1 +:+ rest1) = Some (m1, rest1)) as E1
    by by apply importAt_spec.
  assert (importAt (whole m1 +:+ rest1) = Some (m2, rest2)) as E2
    by by apply importAt_spec.
  rewrite E1 in E2. by injection E2.
Qed.

(** ** The names a line marks *)

Section LineCalls.

Implicit Types line v n : string.

Lemma requirePiece_markAll pieces d :
  foldl requirePiece d pieces
  = markAll (map (fun v => TrimSuffix v requireClose)
                 (filter (fun v => HasPrefix v "." = false) pieces)) d.
Proof.
  revert d. induction pieces as [|v pieces IH]; intros d; [done|].
  cbn [foldl]. rewrite IH, filter_cons. unfold requirePiece.
  destruct (HasPrefix v ".") eqn:E.
  - by rewrite decide_False by done.
  - by rewrite decide_True by done.
Qed.

Lemma handleRequireCase_calls line d :
  handleRequireCase line d = markAll (requireCalls line) d.
Proof.
  unfold handleRequireCase, requireCalls.
  destruct (Split line requireOpen) as [|first pieces]; [done|].
  cbn [requireLoop tail]. by rewrite requireLoop_S, requirePiece_markAll.
Qed.

Lemma scanLineAndExtractPkgs_calls line d :
  scanLineAndExtractPkgs line d = markAll (lineCalls line) d.
Proof.
  unfold scanLineAndExtractPkgs, lineCalls. rewrite markAll_app.
  destruct (Contains line "require"), (Contains line "import");
    by rewrite ?handleRequireCase_calls; unfold handleImportCase;
       rewrite ?importLoop_markAll.
Qed.

Lemma splitFrom_substring sep skip cur s v :
  skip = 0 \/ cur = [] ->
  v ∈ splitFrom sep skip cur s ->
  Substring v (string_of_list_ascii (rev cur) +:+ s).
Proof.
  revert skip cur. induction s as [|c s IH]; intros skip cur Hinv.
  - simpl. intros ->%list_elem_of_singleton. rewrite app_empty_r.
    apply Substring_refl.
  - cbn [splitFrom]. destruct skip as [|k].
    + destruct (HasPrefix (String c s) sep).
      * intros [->|H]%elem_of_cons.
        -- apply Substring_app_r, Substring_refl.
        -- apply IH in H; [|by right]. simpl in H.
           by apply Substring_app_l, (Substring_app_l _ _ (String c "")).
      * intros H. apply IH in H; [|by left]. simpl in H.
        by rewrite of_list_app, app_assoc in H.
    + destruct Hinv as [ | ->]; [done|]. intros H.
      apply IH in H; [|by right]. simpl in *.
      by apply (Substring_app_l _ _ (String c "")).
Qed.

Lemma Split_substring line sep v : v ∈ Split line sep -> Substring v line.
Proof. intros H. by apply splitFrom_substring in H; [|left]. Qed.

Lemma ImportClause_substring kw text name :
  ImportClause kw text name -> Substring name text.
Proof.
  intros (ws & q1 & q2 & _ & _ & _ & _ & _ & ->).
  exists (kw +:+ ws +:+ String q1 ""), (String q2 "").
  by rewrite !app_assoc.
Qed.

Lemma LeftmostMatches_substring s ms m :
  LeftmostMatches s ms -> m ∈ ms -> Substring (whole m) s.
Proof.
  induction 1 as [|pre m' post ms Hm' _ _ IH]; intros Hin.
  - by apply elem_of_nil in Hin.
  - apply elem_of_cons in Hin as [->|Hin].
    + by exists pre, post.
    + by apply Substring_app_l, Substring_app_l, IH.
Qed.

Lemma importName_substring m :
  IsImportMatch m -> Substring (importName m) (whole m).
Proof.
  intros Hm. pose proof (IsImportMatch_name _ Hm) as Hn.
  destruct Hm as [[Hc E]|[Hc E]];
    destruct Hn as [(H1 & H2 & ->)|(H1 & H2 & ->)].
  - exact (ImportClause_substring _ _ _ Hc).
  - destruct Hc as (ws & q1 & q2 & _ & _ & _ & Hne & _). by destruct Hne.
  - by destruct H1.
  - exact (ImportClause_substring _ _ _ Hc).
Qed.

(** A name that a line marks occurs in the line. *)
Lemma lineCalls_substring line n : n ∈ lineCalls line -> Substring n line.
Proof.
  unfold lineCalls. intros [H|H]%elem_of_app.
  - destruct (Contains line "require"); [|by apply elem_of_nil in H].
    unfold requireCalls in H.
    apply list_elem_of_fmap in H as (v & -> & [_ Hv]%list_elem_of_filter).
    destruct (TrimSuffix_prefix v requireClose) as [r Hr].
    assert (Substring v line) as Hsub.
    { apply Split_substring with requireOpen.
      destruct (Split line requireOpen); [done|by right]. }
    eapply Substring_trans; [|exact Hsub].
    exists "", r. by rewrite app_empty_l.
  - destruct (Contains line "import"); [|by apply elem_of_nil in H].
    unfold importCalls in H. apply list_elem_of_fmap in H as (m & -> & Hm).
    pose proof (findAll_leftmost line) as HL.
    eapply Substring_trans;
      [|exact (LeftmostMatches_substring _ _ _ HL Hm)].
    apply importName_substring. by eapply LeftmostMatches_all.
Qed.

End LineCalls.

(** The test for the word require in [scanLineAndExtractPkgs] changes
    nothing: a line without the word has no separator, is a single piece
    and marks nothing. *)
Lemma require_test_is_redundant (line : string) (d : Dependency) :
  (if Contains line "require" then handleRequireCase line d else d)
  = handleRequireCase line d.
Proof.
  destruct (Contains line "require") eqn:E; [done|].
  apply Contains_false in E. unfold handleRequireCase.
  rewrite Split_no_sep; [done|]. intros H. apply E.
  eapply Substring_trans; [|exact H].
  exists "", ("(" +:+ String dquote ""). reflexivity.
Qed.

(** The test for the word import does change something: a line that
    re-exports from a module has a clause of the pattern and is not handed
    to [handleImportCase]. *)
Example export_from_is_not_handled (d : Dependency) :
  scanLineAndExtractPkgs "export { chunk } from 'lodash'" d = d
  /\ handleImportCase "export { chunk } from 'lodash'" d
     = markModuleAsFound "lodash" d.
Proof. split; reflexivity. Qed.

(** C8, as the code has it.  [handleImportCase] finds in the line it is
    given the matches of the pattern, the keyword from or import, white
    space, a quote (double or single), a name and a quote, from left to
    right and without overlap: each one is the match that starts first
    behind the one before, and none is left behind the last.  Every match
    has exactly one group that is not empty, that group is the name taken,
    and the names are passed to [markModuleAsFound] in the order of the
    matches; a line with two import clauses gives two names.
    [scanLineAndExtractPkgs] hands a line to [handleImportCase] exactly
    when the word import occurs in it: such a line has the names of all its
    matches marked, behind the names of its require calls, and for a line
    without the word import no match of the pattern is marked. *)
Theorem handleImportCase_matches (currLine : string) (d : Dependency) :
  LeftmostMatches currLine (FindAllStringSubmatch currLine)
  /\ (forall m,
        m ∈ FindAllStringSubmatch currLine ->
        (group1 m <> "" /\ group2 m = "" /\ importName m = group1 m)
        \/ (group1 m = "" /\ group2 m <> "" /\ importName m = group2 m))
  /\ handleImportCase currLine d
     = markAll (map importName (FindAllStringSubmatch currLine)) d
  /\ (Substring "import" currLine ->
      scanLineAndExtractPkgs currLine d
      = markAll (map importName (FindAllStringSubmatch currLine))
                (handleRequireCase currLine d))
  /\ (~ Substring "import" currLine ->
      scanLineAndExtractPkgs currLine d = handleRequireCase currLine d)
  /\ map importName
       (FindAllStringSubmatch
          ("import React from " +:+ String dquote "react" +:+ String dquote
             "; import    './style.css';"))
     = ["react"; "./style.css"].
Proof.
  split; [apply findAll_leftmost|].
  split; [|split; [|split; [|split; [|reflexivity]]]].
  - intros m Hm. apply IsImportMatch_name.
    eapply LeftmostMatches_all; [apply findAll_leftmost|done].
  - apply importLoop_markAll.
  - intros H%Contains_spec. unfold scanLineAndExtractPkgs.
    rewrite H, require_test_is_redundant. apply importLoop_markAll.
  - intros H%Contains_false. unfold scanLineAndExtractPkgs.
    by rewrite H, require_test_is_redundant.
Qed.

(** C8, as stated, fails for a line without the word import: the last line
    of an import that is spread over several lines has a clause of the
    pattern, its name is not marked, and the dependency is in the removal
    list. *)
Lemma multi_line_import_is_not_handled :
  map importName (FindAllStringSubmatch MultiLineImport.lastLine)
  = ["lodash"]
  /\ Contains MultiLineImport.lastLine "import" = false
  /\ scanLineAndExtractPkgs MultiLineImport.lastLine MultiLineImport.table
     = MultiLineImport.table
  /\ mp (handleImportCase MultiLineImport.lastLine MultiLineImport.table)
       !! "lodash" = Some true
  /\ createDepsToRemoveList
       (scanLineAndExtractPkgs MultiLineImport.lastLine MultiLineImport.table)
     = ["lodash"].
Proof. repeat split; reflexivity. Qed.

(** ** The scan as a run of calls *)

Section Scan.

Implicit Types d : Dependency.

(** The table after a run of calls does not depend on their order. *)
Lemma markAll_Permutation (l k : list string) d :
  l ≡ₚ k -> markAll l d = markAll k d.
Proof.
  intros H. apply Dependency_eq, map_eq. intros i.
  rewrite !markAll_lookup. destruct (mp d !! i); [|done]. simpl.
  do 2 f_equal. apply bool_decide_ext. by rewrite H.
Qed.

Lemma scanLines_calls lines d :
  foldl (fun d currLine => scanLineAndExtractPkgs currLine d) d lines
  = markAll (concat (map lineCalls lines)) d.
Proof.
  revert d. induction lines as [|line lines IH]; intros d; [done|].
  cbn [foldl map concat].
  by rewrite IH, scanLineAndExtractPkgs_calls, markAll_app.
Qed.

(** The tasks run one after the other make a run of calls, each for a name
    that a line of a dispatched file marks. *)
Lemma waitAll_calls tasks w d d' :
  waitAll tasks w d = Ok d' ->
  exists calls,
    d' = markAll calls d
    /\ forall n, n ∈ calls ->
         exists file content line,
           file ∈ tasks /\ os.Open file w = inl content
           /\ line ∈ bufio.ScanLines content /\ n ∈ lineCalls line.
Proof.
  revert d. induction tasks as [|file tasks IH]; intros d.
  - intros [= <-]. exists []. split; [done|]. intros n H.
    by apply elem_of_nil in H.
  - cbn [waitAll]. unfold readFileAndExtractPackages.
    destruct (os.Open file w) as [content|e] eqn:E; [|done]. simpl.
    rewrite scanLines_calls. intros (calls & -> & Hcalls)%IH.
    exists (concat (map lineCalls (bufio.ScanLines content)) ++ calls).
    split; [by rewrite markAll_app|].
    intros n [Hn|Hn]%elem_of_app.
    + apply list_elem_of_In, in_concat in Hn as (l & Hl & Hn).
      apply list_elem_of_In in Hl, Hn.
      apply list_elem_of_fmap in Hl as (line & -> & Hline).
      exists file, content, line. repeat split; try done. by left.
    + destruct (Hcalls n Hn) as (f & c & line & Hf & Ho & Hl & Hc).
      exists f, c, line. repeat split; try done. by right.
Qed.

End Scan.

(** ** The manifest reader and the removal list *)

Section RemovalList.

Implicit Types d : Dependency.
Implicit Types k dep script : string.

Lemma rangeKeys_elem {V} (m : gmap string V) k :
  k ∈ rangeKeys m <-> is_Some (m !! k).
Proof.
  unfold rangeKeys. rewrite list_elem_of_fmap. split.
  - intros ([k' v] & -> & H%elem_of_map_to_list). by exists v.
  - intros [v H]. exists (k, v). by rewrite elem_of_map_to_list.
Qed.

Lemma rangeValues_elem {V} (m : gmap string V) v :
  v ∈ rangeValues m <-> exists k, m !! k = Some v.
Proof.
  unfold rangeValues. rewrite list_elem_of_fmap. split.
  - intros ([k v'] & -> & H%elem_of_map_to_list). by exists k.
  - intros [k H]. exists (k, v). by rewrite elem_of_map_to_list.
Qed.

Lemma declareAll_lookup deps d k :
  mp (declareAll deps d) !! k
  = if decide (k ∈ deps) then Some false else mp d !! k.
Proof.
  unfold declareAll.
  revert d. induction deps as [|dep deps IH]; intros d.
  - by rewrite decide_False by apply not_elem_of_nil.
  - cbn [foldl]. rewrite IH. simpl.
    destruct (decide (k ∈ deps)) as [Hin|Hin].
    + by rewrite decide_True by by right.
    + destruct (decide (k = dep)) as [->|Hne].
      * rewrite decide_True by by left. apply lookup_insert_eq.
      * rewrite decide_False by (rewrite elem_of_cons; intuition).
        by apply lookup_insert_ne.
Qed.

Lemma markScript_fold script keys d k :
  mp (foldl (fun d' dependency =>
               if Contains script dependency
               then {| mp := <[dependency := true]> (mp d') |}
               else d') d keys) !! k
  = if decide (k ∈ keys /\ Contains script k = true) then Some true
    else mp d !! k.
Proof.
  revert d. induction keys as [|dep keys IH]; intros d.
  - rewrite decide_False; [done|]. intros [H _]. by apply elem_of_nil in H.
  - cbn [foldl]. rewrite IH.
    destruct (decide (k ∈ keys /\ Contains script k = true)) as [[H1 H2]|Hn].
    + rewrite decide_True; [done|]. split; [by right|done].
    + destruct (decide (k = dep)) as [->|Hne].
      * destruct (Contains script dep) eqn:E.
        -- rewrite decide_True by (split; [by left|done]).
           apply lookup_insert_eq.
        -- rewrite decide_False; [done|]. intros [_ H]. congruence.
      * rewrite decide_False.
        2:{ intros [[?|?]%elem_of_cons ?]; [done|]. by apply Hn. }
        destruct (Contains script dep); [|done]. simpl.
        by apply lookup_insert_ne.
Qed.

Lemma markScript_lookup script d k :
  mp (markScript script d) !! k
  = (fun b => b || Contains script k) <$> mp d !! k.
Proof.
  unfold markScript. rewrite markScript_fold.
  destruct (mp d !! k) as [b|] eqn:E; simpl.
  - destruct (Contains script k) eqn:Ec.
    + rewrite decide_True; [by rewrite orb_true_r|].
      split; [|done]. apply rangeKeys_elem. by exists b.
    + rewrite decide_False; [by rewrite orb_false_r|]. by intros [_ ?].
  - rewrite decide_False; [done|]. intros [H%rangeKeys_elem _].
    rewrite E in H. by destruct H.
Qed.

Lemma markScripts_lookup scripts d k :
  mp (foldl (fun d script => markScript script d) d scripts) !! k
  = (fun b => b || existsb (fun script => Contains script k) scripts)
      <$> mp d !! k.
Proof.
  revert d. induction scripts as [|script scripts IH]; intros d.
  - simpl. destruct (mp d !! k); simpl; [|done]. by rewrite orb_false_r.
  - cbn [foldl existsb]. rewrite IH, markScript_lookup.
    destruct (mp d !! k); simpl; [|done]. by rewrite orb_assoc.
Qed.

(** The table [readPackages] builds from an empty one: the declared names
    are its keys, and a name is marked when a script contains it. *)
Lemma populate_lookup pkg k :
  mp (populate pkg {| mp := ∅ |}) !! k
  = if decide (is_Some (Dependencies pkg !! k)
               \/ is_Some (DevDependencies pkg !! k))
    then Some (existsb (fun script => Contains script k)
                       (rangeValues (Scripts pkg)))
    else None.
Proof.
  unfold populate. rewrite markScripts_lookup, !declareAll_lookup. simpl.
  destruct (decide (k ∈ rangeKeys (DevDependencies pkg))) as [H|H];
    rewrite rangeKeys_elem in H.
  - by rewrite decide_True by by right.
  - destruct (decide (k ∈ rangeKeys (Dependencies pkg))) as [H'|H'];
      rewrite rangeKeys_elem in H'.
    + by rewrite decide_True by by left.
    + rewrite decide_False by intuition. by rewrite lookup_empty.
Qed.

Lemma createDepsToRemoveList_fold (l : list (string * bool)) acc k :
  k ∈ foldl (fun depsToRemove '(k, v) =>
               if negb v then depsToRemove ++ [k] else depsToRemove) acc l
  <-> k ∈ acc \/ (k, false) ∈ l.
Proof.
  revert acc. induction l as [|[k' v] l IH]; intros acc.
  - simpl. rewrite elem_of_nil. intuition.
  - cbn [foldl]. rewrite IH, elem_of_cons. destruct v; simpl.
    + split; [intuition|]. intros [?|[H|?]]; auto. discriminate H.
    + rewrite elem_of_app, list_elem_of_singleton. split.
      * intros [[?|H]|?]; subst; auto.
      * intros [?|[H|?]]; auto. injection H as ->. auto.
Qed.

(** The removal list holds the keys whose flag is [false]. *)
Lemma createDepsToRemoveList_spec d k :
  k ∈ createDepsToRemoveList d <-> mp d !! k = Some false.
Proof.
  unfold createDepsToRemoveList.
  rewrite createDepsToRemoveList_fold, elem_of_map_to_list, elem_of_nil.
  intuition.
Qed.

End RemovalList.

(** C1. Let the table be the one [readPackages] builds from the decoded
    manifest, followed by the calls of [markModuleAsFound] of a scan in any
    order, each call made for a name that a scanned line marks.  For a
    declared dependency (a key of dependencies or devDependencies) the
    removal list contains the name exactly when its flag is [false] in that
    table; a name that occurs in a script is not in the list whatever the
    scan found; and a name that occurs in no scanned line and in no script
    is in the list. *)
Theorem removal_list_is_unused (pkg : Package) (scanned calls : list string)
    (dep : string) :
  (forall n, n ∈ calls -> exists line, line ∈ scanned /\ n ∈ lineCalls line) ->
  is_Some (Dependencies pkg !! dep) \/ is_Some (DevDependencies pkg !! dep) ->
  let d := markAll calls (populate pkg {| mp := ∅ |}) in
  (dep ∈ createDepsToRemoveList d <-> mp d !! dep = Some false)
  /\ ((exists name script,
         Scripts pkg !! name = Some script /\ Substring dep script) ->
      dep ∉ createDepsToRemoveList d)
  /\ ((forall line, line ∈ scanned -> ~ Substring dep line) ->
      (forall name script,
         Scripts pkg !! name = Some script -> ~ Substring dep script) ->
      dep ∈ createDepsToRemoveList d).
Proof.
  intros Hcalls Hdecl d. split; [apply createDepsToRemoveList_spec|].
  assert (mp d !! dep
          = Some (existsb (fun script => Contains script dep)
                          (rangeValues (Scripts pkg))
                  || bool_decide (dep ∈ calls))) as Hd.
  { unfold d. rewrite markAll_lookup, populate_lookup.
    by rewrite decide_True by done. }
  rewrite !createDepsToRemoveList_spec, Hd. split.
  - intros (name & script & Hs & Hsub) [= H].
    apply orb_false_iff in H as [H _].
    assert (existsb (fun script => Contains script dep)
                    (rangeValues (Scripts pkg)) = true) as Ht; [|congruence].
    apply existsb_exists. exists script. split.
    + apply list_elem_of_In, rangeValues_elem. by exists name.
    + by apply Contains_spec.
  - intros Hlines Hscripts. f_equal. apply orb_false_iff. split.
    + apply not_true_is_false. intros (script & Hin & Hc)%existsb_exists.
      apply list_elem_of_In, rangeValues_elem in Hin as [name Hs].
      apply (Hscripts name script Hs). by apply Contains_spec.
    + apply bool_decide_eq_false. intros Hin.
      destruct (Hcalls dep Hin) as (line & Hline & Hcall).
      apply (Hlines line Hline). by apply lineCalls_substring.
Qed.

Lemma removal_list_is_unused_witness :
  "chalk" ∈ createDepsToRemoveList
              (markAll ["lodash"] (populate Sample.pkg {| mp := ∅ |})).
Proof.
  apply (removal_list_is_unused Sample.pkg [Sample.indexLine] ["lodash"]
           "chalk").
  - intros n Hn. apply list_elem_of_singleton in Hn as ->.
    exists Sample.indexLine. split; [by left|]. vm_compute. by left.
  - left. vm_compute. by eexists.
  - intros line Hline. apply list_elem_of_singleton in Hline as ->.
    apply Contains_false. reflexivity.
  - intros name script Hs. simpl in Hs.
    apply lookup_singleton_Some in Hs as [_ <-].
    apply Contains_false. reflexivity.
Defined.

(** ** The tree scanner *)

Section TreeScanner.

Implicit Types path name : string.
Implicit Types tasks : list string.

Lemma walk_Dir fn path name entries tasks :
  walk fn path (Dir name true entries) tasks
  = '(err1, tasks) ← fn path (Some {| IsDir := true |}) None tasks;
    match err1 with
    | None => walkEntries fn path entries tasks
    | Some _ => Ok (err1, tasks)
    end.
Proof. reflexivity. Qed.

Lemma scanDir_excluded_dir path e tasks :
  is_Some (filesToExclude !! path) ->
  scanDir path (Some {| IsDir := true |}) e tasks = Ok (Some SkipDir, tasks).
Proof. intros [n H]. unfold scanDir. by rewrite H. Qed.

Lemma scanDir_excluded_file path e tasks :
  is_Some (filesToExclude !! path) ->
  scanDir path (Some {| IsDir := false |}) e tasks = Ok (None, tasks).
Proof. intros [n H]. unfold scanDir. by rewrite H. Qed.

Lemma walk_excluded_dir path name listable entries tasks :
  is_Some (filesToExclude !! path) ->
  walk scanDir path (Dir name listable entries) tasks
  = Ok (Some SkipDir, tasks).
Proof.
  intros H. cbn [walk]. rewrite scanDir_excluded_dir by done.
  by destruct listable.
Qed.

Lemma walkEntries_skip parent node before after tasks :
  is_Some (filesToExclude !! Join parent (nodeName node)) ->
  (forall n, node <> NoStat n) ->
  walkEntries scanDir parent (before ++ node :: after) tasks
  = walkEntries scanDir parent (before ++ after) tasks.
Proof.
  intros Hex Hnode. revert tasks.
  induction before as [|b before IH]; intros tasks.
  - cbn [app walkEntries]. destruct node as [name|name listable entries|name].
    + cbn [walk]. by rewrite scanDir_excluded_file.
    + by rewrite walk_excluded_dir.
    + by destruct (Hnode name).
  - cbn [app walkEntries].
    destruct (walk scanDir (Join parent (nodeName b)) b tasks)
      as [[[e|] tasks']| |]; simpl; try done.
    destruct b; try done; destruct (isSkipDir e); try done.
Qed.

End TreeScanner.

(** C3, as the code has it.  A path that is itself an entry of the
    exclusion set, as the walk hands it to [scanDir], is skipped entirely:
    the walk of an excluded directory dispatches no task, whatever lies
    beneath it, and returns [SkipDir]; an excluded file dispatches no task;
    and inside the parent directory the walk goes on with the entries
    behind the skipped one exactly as if it were not there.  Directly under
    the root of the walk the path of an entry is its name. *)
Theorem excluded_path_is_skipped (path : string) :
  is_Some (filesToExclude !! path) ->
  (forall name listable entries tasks,
     walk scanDir path (Dir name listable entries) tasks
     = Ok (Some SkipDir, tasks))
  /\ (forall name tasks, walk scanDir path (File name) tasks = Ok (None, tasks))
  /\ (forall parent pname node before after tasks,
        Join parent (nodeName node) = path ->
        (forall n, node <> NoStat n) ->
        walk scanDir parent (Dir pname true (before ++ node :: after)) tasks
        = walk scanDir parent (Dir pname true (before ++ after)) tasks)
  /\ Join "." path = path.
Proof.
  intros Hex. split; [|split; [|split; [|reflexivity]]].
  - intros. by apply walk_excluded_dir.
  - intros. cbn [walk]. by apply scanDir_excluded_file.
  - intros parent pname node before after tasks Hpath Hnode.
    rewrite !walk_Dir.
    destruct (scanDir parent _ None tasks) as [[[e|] tasks']| |]; try done.
    simpl. apply walkEntries_skip; [by rewrite Hpath|done].
Qed.

Lemma excluded_path_is_skipped_witness :
  walk scanDir "node_modules"
       (Dir "node_modules" true [Dir "lodash" true [File "index.js"]]) []
  = Ok (Some SkipDir, [])
  /\ Walk "." scanDir
       {| files := ∅;
          tree := Dir "." true
                    [File "a.js";
                     Dir "node_modules" true
                       [Dir "lodash" true [File "index.js"]];
                     Dir "src" true [File "b.js"]];
          refused := fun _ => false; stdout := [] |}
     = Ok (None, ["a.js"; "src/b.js"]).
Proof.
  split; [|reflexivity].
  apply (excluded_path_is_skipped "node_modules"). vm_compute. by eexists.
Defined.

(** C3, as stated, fails below the first level: there the path that
    [scanDir] looks up is not the name, and a file under a nested
    [node_modules] is dispatched. *)
Lemma nested_excluded_name_is_scanned :
  Walk "." scanDir
    {| files := ∅;
       tree := Dir "." true
                 [Dir "src" true [Dir "node_modules" true [File "y.js"]]];
       refused := fun _ => false; stdout := [] |}
  = Ok (None, ["src/node_modules/y.js"]).
Proof. reflexivity. Qed.

(** ** What the walk with [scanDir] returns *)

Section WalkTasks.

Implicit Types path : string.
Implicit Types tasks : list string.

Lemma scanDir_open_dir path e tasks :
  filesToExclude !! path = None ->
  scanDir path (Some {| IsDir := true |}) e tasks = Ok (None, tasks).
Proof. intros H. unfold scanDir. by rewrite H. Qed.

Lemma walk_Dir_open path name listable entries tasks :
  filesToExclude !! path = None ->
  walk scanDir path (Dir name listable entries) tasks
  = if listable then walkEntries scanDir path entries tasks
    else Ok (None, tasks).
Proof.
  intros H. destruct listable.
  - rewrite walk_Dir. by rewrite scanDir_open_dir.
  - cbn [walk]. by rewrite scanDir_open_dir.
Qed.

Lemma walkEntries_cons_ok fn path child names tasks e tasks' :
  walk fn (Join path (nodeName child)) child tasks = Ok (e, tasks') ->
  (e = None \/ (e = Some SkipDir /\ forall n, child <> File n)) ->
  walkEntries fn path (child :: names) tasks
  = walkEntries fn path names tasks'.
Proof.
  intros Hw He. cbn [walkEntries]. rewrite Hw. simpl.
  destruct He as [->|[-> Hc]]; [done|].
  destruct child as [n| |]; [by destruct (Hc n)|done|done].
Qed.

Lemma verdict_cases path node :
  verdict path node = None
  \/ (verdict path node = Some SkipDir /\ forall n, node <> File n).
Proof.
  unfold verdict. destruct (filesToExclude !! path); [|by left].
  destruct node; [by left|by right|by left].
Qed.

Lemma walkEntries_statable path before rest tasks :
  Forall (fun child =>
            forall path tasks,
              statable child = true ->
              walk scanDir path child tasks
              = Ok (verdict path child, tasks ++ eligible path child))
         before ->
  forallb statable before = true ->
  walkEntries scanDir path (before ++ rest) tasks
  = walkEntries scanDir path rest
      (tasks ++ flat_map
                  (fun child => eligible (Join path (nodeName child)) child)
                  before).
Proof.
  intros HF. revert tasks.
  induction HF as [|child before Hchild _ IH]; intros tasks Hst.
  - simpl. by rewrite app_nil_r.
  - simpl in Hst. apply andb_true_iff in Hst as [Hc Hb].
    cbn [app flat_map].
    rewrite (walkEntries_cons_ok _ _ _ _ _ _ _ (Hchild _ tasks Hc))
      by apply verdict_cases.
    rewrite IH by done. by rewrite <- List.app_assoc.
Qed.

Lemma walk_statable node :
  forall path tasks,
    statable node = true ->
    walk scanDir path node tasks
    = Ok (verdict path node, tasks ++ eligible path node).
Proof.
  induction node as [name|name listable entries IH|name]
    using FsNode_entries_ind; intros path tasks Hst.
  - cbn [walk eligible]. unfold scanDir, verdict.
    destruct (filesToExclude !! path); simpl; [|done].
    by rewrite app_nil_r.
  - destruct (filesToExclude !! path) as [n|] eqn:E.
    + rewrite walk_excluded_dir by by exists n.
      unfold verdict. cbn [eligible]. rewrite E. by rewrite app_nil_r.
    + rewrite walk_Dir_open by done. unfold verdict.
      cbn [eligible]. rewrite E. destruct listable.
      * rewrite <- (app_nil_r entries) at 1.
        by rewrite (walkEntries_statable _ _ [] _ IH Hst).
      * by rewrite app_nil_r.
  - done.
Qed.

Lemma walkEntries_sound path entries :
  Forall (fun child =>
            forall path tasks,
              match walk scanDir path child tasks with
              | Ok (e, tasks') =>
                  (e = None \/ e = Some SkipDir)
                  /\ exists new,
                       tasks' = tasks ++ new
                       /\ forall t, t ∈ new -> filesToExclude !! t = None
              | Fatal _ => False
              | Panic => True
              end)
         entries ->
  forall tasks,
    match walkEntries scanDir path entries tasks with
    | Ok (e, tasks') =>
        (e = None \/ e = Some SkipDir)
        /\ exists new,
             tasks' = tasks ++ new
             /\ forall t, t ∈ new -> filesToExclude !! t = None
    | Fatal _ => False
    | Panic => True
    end.
Proof.
  induction 1 as [|child entries Hchild _ IH]; intros tasks.
  - simpl. split; [by left|]. exists []. split; [by rewrite app_nil_r|].
    intros t H. by apply elem_of_nil in H.
  - cbn [walkEntries].
    specialize (Hchild (Join path (nodeName child)) tasks).
    destruct (walk scanDir (Join path (nodeName child)) child tasks)
      as [[e tasks1]| |]; simpl; [|done|done].
    destruct Hchild as [He (new1 & -> & Hnew1)].
    assert (match walkEntries scanDir path entries (tasks ++ new1) with
            | Ok (e, tasks') =>
                (e = None \/ e = Some SkipDir)
                /\ exists new,
                     tasks' = tasks ++ new
                     /\ forall t, t ∈ new -> filesToExclude !! t = None
            | Fatal _ => False
            | Panic => True
            end) as Hrest.
    { specialize (IH (tasks ++ new1)).
      destruct (walkEntries scanDir path entries (tasks ++ new1))
        as [[e' tasks2]| |]; [|done|done].
      destruct IH as [He' (new2 & -> & Hnew2)]. split; [done|].
      exists (new1 ++ new2). split; [by rewrite List.app_assoc|].
      intros t [?|?]%elem_of_app; auto. }
    assert ((e = None \/ e = Some SkipDir)
            /\ exists new,
                 tasks ++ new1 = tasks ++ new
                 /\ forall t, t ∈ new -> filesToExclude !! t = None)
      as Hstop by (split; [done|by exists new1]).
    destruct He as [->| ->]; [done|].
    destruct child; simpl; done.
Qed.

Lemma walk_sound node :
  forall path tasks,
    match walk scanDir path node tasks with
    | Ok (e, tasks') =>
        (e = None \/ e = Some SkipDir)
        /\ exists new,
             tasks' = tasks ++ new
             /\ forall t, t ∈ new -> filesToExclude !! t = None
    | Fatal _ => False
    | Panic => True
    end.
Proof.
  induction node as [name|name listable entries IH|name]
    using FsNode_entries_ind; intros path tasks.
  - cbn [walk]. unfold scanDir.
    destruct (filesToExclude !! path) eqn:E; simpl.
    + split; [by left|]. exists []. split; [by rewrite app_nil_r|].
      intros t H. by apply elem_of_nil in H.
    + split; [by left|]. exists [path]. split; [done|].
      by intros t ->%list_elem_of_singleton.
  - destruct (filesToExclude !! path) as [n|] eqn:E.
    + rewrite walk_excluded_dir by by exists n.
      split; [by right|]. exists []. split; [by rewrite app_nil_r|].
      intros t H. by apply elem_of_nil in H.
    + rewrite walk_Dir_open by done. destruct listable.
      * by apply walkEntries_sound.
      * split; [by left|]. exists []. split; [by rewrite app_nil_r|].
        intros t H. by apply elem_of_nil in H.
  - cbn [walk]. unfold scanDir. by destruct (filesToExclude !! path).
Qed.

End WalkTasks.

(** ** Errors of the run *)

(** C10, as the code has it.  [scanDir] does not look at the error it is
    given and returns nil for it, so [filepath.Walk] never returns an error
    to [main]: the walk panics or returns nil, a directory that cannot be
    listed is passed over with nothing dispatched from it, and [main] goes
    on as after a walk without error, without the diagnostic: it waits for
    the dispatched tasks, builds the removal list from the table as it is
    and rewrites the manifest.  So a directory that cannot be listed leads
    to pruning from an incomplete scan: in the sample project [chalk],
    which only the file in that directory requires, is removed, while it
    is kept when the directory can be listed.  The branch of [main] for
    an error of the walk prints the diagnostic and goes on in the same way;
    with [scanDir] as the callback no run takes it. *)
Theorem walk_error_is_swallowed
    (Unmarshal : string -> Package * option error) (w : World) :
  (forall path info e1 e2 ts,
     scanDir path info e1 ts = scanDir path info e2 ts)
  /\ match Walk "." scanDir w with
     | Ok (err, _) => err = None
     | Fatal _ => False
     | Panic => True
     end
  /\ (forall path name entries ts,
        filesToExclude !! path = None ->
        walk scanDir path (Dir name false entries) ts = Ok (None, ts))
  /\ main Unmarshal w
     = ('(w1, d) ← readPackages Unmarshal w {| mp := ∅ |};
        '(_, tasks) ← Walk "." scanDir w1;
        afterWalk None tasks w1 d)
  /\ (forall tasks d,
        afterWalk None tasks w d
        = (d' ← waitAll tasks w d;
           w2 ← deleteDepsFromPackageJSON (createDepsToRemoveList d')
                  (PrintAll (createDepsToRemoveListPrints d')
                     (Println "Finished walking the directory"
                        (PrintAll (waitAllPrints tasks w) w)));
           Ok (Println "Refer to oldpackage.json for the old original file."
                 (Println "Package.json has been changed."
                    (Println "Program Complete...." w2)))))
  /\ (exists w',
        main Sample.decode (Faulty.unlistable false) = Ok w'
        /\ files w' !! "package.json" = Some Faulty.withoutChalk
        /\ files w' !! "oldpackage.json" = Some Sample.manifest)
  /\ (exists w',
        main Sample.decode (Faulty.unlistable true) = Ok w'
        /\ files w' !! "package.json" = Some Sample.manifest)
  /\ (forall e tasks d,
        afterWalk (Some e) tasks w d
        = afterWalk None tasks
            (Println ("Error scanning the directory " +:+ errorText e +:+ ":")
                     w) d).
Proof.
  assert (forall w0, match Walk "." scanDir w0 with
                     | Ok (err, _) => err = None
                     | Fatal _ => False
                     | Panic => True
                     end) as Hwalk.
  { intros w0. unfold Walk. pose proof (walk_sound (tree w0) "." []) as H.
    destruct (walk scanDir "." (tree w0) []) as [[e tasks]| |]; [|done|done].
    destruct H as [[->| ->] _]; done. }
  split; [reflexivity|]. split; [apply Hwalk|].
  split; [intros; by apply walk_Dir_open|]. split; [|split; [reflexivity|]].
  - unfold main.
    destruct (readPackages Unmarshal w {| mp := ∅ |}) as [[w1 d]| |];
      simpl; [|done|done].
    specialize (Hwalk w1).
    destruct (Walk "." scanDir w1) as [[err tasks]| |]; simpl; [|done|done].
    by rewrite Hwalk.
  - split; [|split; [|reflexivity]];
      vm_compute; eexists; repeat split; reflexivity.
Qed.

(** C10, as stated, fails at its own example: with a directory that cannot
    be listed the walk returns no error, [main] ends normally and no line
    of its output is the diagnostic. *)
Lemma unlistable_directory_gives_no_walk_error :
  Walk "." scanDir (Faulty.unlistable false) = Ok (None, ["index.js"])
  /\ exists w',
       main Sample.decode (Faulty.unlistable false) = Ok w'
       /\ forallb (fun line =>
                     negb (HasPrefix line "Error scanning the directory"))
                  (stdout w') = true
       /\ files w' !! "package.json" = Some Faulty.withoutChalk.
Proof.
  split; [reflexivity|]. vm_compute. eexists. repeat split; reflexivity.
Qed.

(** C2 on the code, the part that holds: when the manifest cannot be
    opened the run ends in [log.Fatal] before the walk starts. *)
Lemma main_without_manifest Unmarshal (w : World) (e : error) :
  os.Open "package.json" w = inr e -> main Unmarshal w = Fatal e.
Proof. intros H. unfold main, readPackages. by rewrite H. Qed.

(** C2 on the code, the part that fails: whatever error the decoder
    returns, [readPackages] returns normally with the table built from what
    the decoder stored. *)
Lemma readPackages_drops_decoder_error Unmarshal (w : World) (d : Dependency)
    (byteValue : string) :
  os.Open "package.json" w = inl byteValue ->
  readPackages Unmarshal w d
  = Ok (Println "Reading Package.json" w,
        populate (Unmarshal byteValue).1 d).
Proof.
  intros H. unfold readPackages. rewrite H. simpl.
  by destruct (Unmarshal byteValue).
Qed.

(** C2 at a manifest that is not valid: the decoder reports an error, and
    the run still walks the tree, rewrites the manifest and ends
    normally. *)
Theorem invalid_manifest_is_not_fatal :
  (Sample.decode ("{ not json" +:+ lf)).2 = Some (OsError "invalid character")
  /\ exists w',
       main Sample.decode Faulty.broken = Ok w'
       /\ stdout w'
          = [ "Reading Package.json"; "Finished walking the directory";
              "Program Complete...."; "Package.json has been changed.";
              "Refer to oldpackage.json for the old original file." ]
       /\ files w' !! "oldpackage.json" = Some ("{ not json" +:+ lf).
Proof.
  split; [reflexivity|]. vm_compute. eexists. repeat split; reflexivity.
Qed.

(** C4 on the code, the part that holds: a manifest that cannot be opened
    and a temporary file that cannot be created, read or written end the
    run in [log.Fatal]. *)
Lemma deleteDepsFromPackageJSON_fatal (depsToRemove : list string)
    (w : World) (jsonFile : string) :
  (forall e, os.Open "package.json" w = inr e ->
             deleteDepsFromPackageJSON depsToRemove w = Fatal e)
  /\ (os.Open "package.json" w = inl jsonFile ->
      refused w (OpCreate "newPackage.json") = true ->
      deleteDepsFromPackageJSON depsToRemove w
      = Fatal (OsError "open newPackage.json"))
  /\ (os.Open "package.json" w = inl jsonFile ->
      refused w (OpCreate "newPackage.json") = false ->
      refused w (OpReadFile "newPackage.json") = true ->
      deleteDepsFromPackageJSON depsToRemove w
      = Fatal (OsError "open newPackage.json"))
  /\ (os.Open "package.json" w = inl jsonFile ->
      refused w (OpCreate "newPackage.json") = false ->
      refused w (OpReadFile "newPackage.json") = false ->
      refused w (OpWriteFile "newPackage.json") = true ->
      deleteDepsFromPackageJSON depsToRemove w
      = Fatal (OsError "open newPackage.json")).
Proof.
  unfold deleteDepsFromPackageJSON, createNewPackageJsonFile,
    removeTrailingCommas, os.Create, os.ReadFile, os.WriteFile.
  repeat split.
  - intros e ->. done.
  - intros -> ->. done.
  - intros -> -> H. simpl. by rewrite H.
  - intros -> -> Hr Hw. simpl. rewrite Hr, lookup_insert_eq. simpl.
    by rewrite Hw.
Qed.

(** C4 on the code: the two renames never end the run; whatever they
    return, [deleteDepsFromPackageJSON] returns normally once the temporary
    file has been written. *)
Lemma deleteDepsFromPackageJSON_ignores_rename (depsToRemove : list string)
    (w w1 w2 : World) (jsonFile : string) :
  os.Open "package.json" w = inl jsonFile ->
  createNewPackageJsonFile depsToRemove jsonFile w = Ok w1 ->
  removeTrailingCommas w1 = Ok w2 ->
  deleteDepsFromPackageJSON depsToRemove w
  = Ok (os.Rename "newPackage.json" "package.json"
          (os.Rename "package.json" "oldpackage.json" w2).1).1.
Proof.
  intros H0 H1 H2. unfold deleteDepsFromPackageJSON.
  rewrite H0. simpl. rewrite H1. simpl. rewrite H2. simpl.
  destruct (os.Rename "package.json" "oldpackage.json" w2) as [w3 e3].
  simpl. by destruct (os.Rename "newPackage.json" "package.json" w3).
Qed.

(** C4 at a failing rename: the manifest cannot be renamed to the backup
    name; the run ends normally all the same, the pruned text replaces the
    manifest and no backup exists. *)
Theorem failed_rename_is_not_fatal :
  (os.Rename "package.json" "oldpackage.json" Faulty.noBackup).2
  = Some (OsError "rename package.json")
  /\ exists w',
       main Sample.decode Faulty.noBackup = Ok w'
       /\ files w' !! "package.json" = Some Faulty.withoutChalk
       /\ files w' !! "oldpackage.json" = None
       /\ last (stdout w')
          = Some "Refer to oldpackage.json for the old original file.".
Proof.
  split; [reflexivity|]. vm_compute. eexists. repeat split; reflexivity.
Qed.

(** ** The repair of trailing commas *)

Section Repair.

Implicit Types s t rest : string.

Lemma commaBraceAt_spec s rest :
  commaBraceAt s = Some rest
  <-> exists ws,
        every isSpace ws = true
        /\ s = String ","%char (ws +:+ String "}"%char rest).
Proof.
  unfold commaBraceAt. split.
  - destruct s as [|c r]; [done|].
    destruct (Ascii.eqb_spec c ","%char) as [->|]; [|done].
    destruct (skipSpaces_split r) as [ws [Hws Hr]].
    destruct (skipSpaces r) as [|b rest']; [done|].
    destruct (Ascii.eqb_spec b "}"%char) as [->|]; [|done].
    intros [= <-]. by exists ws; rewrite Hr.
  - intros (ws & Hws & ->). simpl.
    by rewrite skipSpaces_app.
Qed.

Lemma replaceAllFrom_skip t s :
  replaceAllFrom (len t) (t +:+ s) = replaceAllFrom 0 s.
Proof.
  induction t as [|c t IH]; [by destruct s|].
  rewrite app_cons, len_cons. exact IH.
Qed.

Lemma ReplaceAllString_match s rest :
  commaBraceAt s = Some rest ->
  ReplaceAllString s = String "}"%char (ReplaceAllString rest).
Proof.
  intros E. pose proof E as (ws & Hws & ->)%commaBraceAt_spec.
  unfold ReplaceAllString. cbn [replaceAllFrom]. rewrite E. f_equal.
  replace (len (ws +:+ String "}"%char rest) - len rest)
    with (len (ws +:+ String "}"%char "")).
  - rewrite <- (replaceAllFrom_skip (ws +:+ String "}"%char "") rest).
    by rewrite app_assoc.
  - rewrite !len_app, !len_cons. simpl. lia.
Qed.

Lemma ReplaceAllString_no_match c s :
  commaBraceAt (String c s) = None ->
  ReplaceAllString (String c s) = String c (ReplaceAllString s).
Proof.
  intros E. unfold ReplaceAllString. cbn [replaceAllFrom]. by rewrite E.
Qed.

Lemma NoCommaBrace_head c s :
  NoCommaBrace (String c s) -> commaBraceAt (String c s) = None.
Proof.
  intros H. destruct (commaBraceAt (String c s)) as [rest|] eqn:E; [|done].
  apply commaBraceAt_spec in E as (ws & Hws & E).
  by destruct (H "" ws rest Hws).
Qed.

Lemma NoCommaBrace_tail c s : NoCommaBrace (String c s) -> NoCommaBrace s.
Proof.
  intros H pre ws post Hws ->. by apply (H (String c pre) ws post Hws).
Qed.

Lemma ReplaceAllString_id s : NoCommaBrace s -> ReplaceAllString s = s.
Proof.
  induction s as [|c s IH]; [done|]. intros H.
  rewrite ReplaceAllString_no_match by by apply NoCommaBrace_head.
  f_equal. by eapply IH, NoCommaBrace_tail.
Qed.

Lemma ReplaceAllString_len s : len (ReplaceAllString s) <= len s.
Proof.
  remember (len s) as n eqn:Hn. revert s Hn.
  induction n as [n IH] using lt_wf_ind. intros s ->.
  destruct s as [|c s]; [done|].
  destruct (commaBraceAt (String c s)) as [rest|] eqn:E.
  - rewrite (ReplaceAllString_match _ _ E).
    apply commaBraceAt_spec in E as (ws & Hws & E). rewrite E.
    rewrite !len_cons, len_app, len_cons.
    specialize (IH (len rest)). 
    assert (len (ReplaceAllString rest) <= len rest); [|lia].
    apply IH; [|done]. rewrite E, len_cons, len_app, len_cons. lia.
  - rewrite (ReplaceAllString_no_match _ _ E), !len_cons.
    apply le_n_S. apply (IH (len s)); [rewrite len_cons; lia|done].
Qed.

Lemma ReplaceAllString_shrinks s :
  ~ NoCommaBrace s -> len (ReplaceAllString s) < len s.
Proof.
  induction s as [|c s IH]; intros H.
  - destruct H. intros [|a pre] ws post _; done.
  - destruct (commaBraceAt (String c s)) as [rest|] eqn:E.
    + rewrite (ReplaceAllString_match _ _ E).
      apply commaBraceAt_spec in E as (ws & Hws & E). rewrite E.
      pose proof (ReplaceAllString_len rest).
      rewrite !len_cons, len_app, len_cons. lia.
    + rewrite (ReplaceAllString_no_match _ _ E), !len_cons.
      apply ->Nat.succ_lt_mono. apply IH. intros Hs. apply H.
      intros [|a pre] ws post Hws Heq.
      * assert (commaBraceAt (String c s) = Some post) as E'
          by (apply commaBraceAt_spec; by exists ws).
        congruence.
      * rewrite app_cons in Heq. injection Heq as _ Heq.
        by apply (Hs pre ws post Hws).
Qed.

(** The repair leaves a text as it is exactly when the text has no comma
    before a closing brace. *)
Lemma ReplaceAllString_fixed s : ReplaceAllString s = s <-> NoCommaBrace s.
Proof.
  split; [|apply ReplaceAllString_id].
  intros E pre ws post Hws Hs.
  assert (~ NoCommaBrace s) as Hn by (intros H; by apply (H pre ws post)).
  apply ReplaceAllString_shrinks in Hn. rewrite E in Hn. lia.
Qed.

Lemma copyLines_nil lines : copyLines [] lines = joinLines lines.
Proof. induction lines as [|l lines IH]; [done|]. simpl. by rewrite IH. Qed.

End Repair.

(** C5, as the code has it.  With an empty removal list every line that
    the scanner yields is copied unchanged and followed by a line feed.
    The repair goes through the text from left to right: at a comma that
    is followed, after white space (possibly none), by a closing brace it
    writes the brace alone and goes on behind that brace, and every other
    byte it copies; so it leaves a text as it is exactly when the text has
    no such comma.  Hence for a manifest that is the text of its scanned
    lines, each followed by a line feed, and that has no such comma, the
    pruner leaves the content of the manifest byte for byte as it was, and
    the backup holds the same content.  A text is the text of its scanned
    lines when each of its lines ends in a line feed, does not end in a
    carriage return and is shorter than 65536 bytes. *)
Theorem prune_nothing_is_identity (w : World) (content : string) :
  files w !! "package.json" = Some content ->
  (forall op, refused w op = false) ->
  joinLines (bufio.ScanLines content) = content ->
  NoCommaBrace content ->
  (forall lines, copyLines [] lines = joinLines lines)
  /\ (forall s, ReplaceAllString s = s <-> NoCommaBrace s)
  /\ ReplaceAllString "" = ""
  /\ (forall ws rest,
        every isSpace ws = true ->
        ReplaceAllString (String ","%char (ws +:+ String "}"%char rest))
        = String "}"%char (ReplaceAllString rest))
  /\ (forall c s,
        (forall ws rest,
           every isSpace ws = true ->
           String c s <> String ","%char (ws +:+ String "}"%char rest)) ->
        ReplaceAllString (String c s) = String c (ReplaceAllString s))
  /\ (forall lines,
        Forall (fun line => noLF line = true /\ noTrailingCR line = true
                            /\ shortLine line = true) lines ->
        joinLines (bufio.ScanLines (joinLines lines)) = joinLines lines)
  /\ exists w',
       deleteDepsFromPackageJSON [] w = Ok w'
       /\ files w' !! "package.json" = Some content
       /\ files w' !! "oldpackage.json" = Some content.
Proof.
  intros Hfile Hok Hlines Hcommas.
  split; [apply copyLines_nil|]. split; [apply ReplaceAllString_fixed|].
  split; [reflexivity|]. split; [|split; [|split]].
  - intros ws rest Hws. apply ReplaceAllString_match.
    apply commaBraceAt_spec. by exists ws.
  - intros c s Hno. apply ReplaceAllString_no_match.
    destruct (commaBraceAt (String c s)) as [rest|] eqn:E; [|done].
    apply commaBraceAt_spec in E as (ws & Hws & E).
    by destruct (Hno ws rest Hws).
  - intros lines Hl. by rewrite ScanLines_joinLines.
  - unfold deleteDepsFromPackageJSON, createNewPackageJsonFile,
      removeTrailingCommas, os.Open, os.Create, os.ReadFile, os.WriteFile,
      os.Rename.
    rewrite Hok, Hfile. simpl. rewrite !Hok. simpl.
    rewrite lookup_insert_eq. simpl. rewrite !Hok.
    rewrite copyLines_nil, Hlines, ReplaceAllString_id by done. simpl.
    rewrite !lookup_insert_ne, Hfile by done. simpl.
    rewrite lookup_insert_ne, lookup_delete_ne, lookup_insert_eq by done.
    simpl. rewrite Hok.
    eexists. split; [reflexivity|]. simpl. split.
    + apply lookup_insert_eq.
    + rewrite lookup_insert_ne, lookup_delete_ne, lookup_insert_eq; done.
Qed.

Lemma prune_nothing_is_identity_witness :
  exists w',
    deleteDepsFromPackageJSON [] Sample.world = Ok w'
    /\ files w' !! "package.json" = Some Sample.manifest
    /\ files w' !! "oldpackage.json" = Some Sample.manifest.
Proof.
  apply (prune_nothing_is_identity Sample.world Sample.manifest).
  - reflexivity.
  - intros op. reflexivity.
  - reflexivity.
  - apply ReplaceAllString_fixed. reflexivity.
Defined.

(** C5, as stated, fails: the manifest is valid and its lines end in a line
    feed, and the pruner with an empty removal list changes the command of
    its script. *)
Lemma valid_manifest_is_rewritten :
  Json.valid CommaInString.manifest = true
  /\ joinLines (bufio.ScanLines CommaInString.manifest)
     = CommaInString.manifest
  /\ exists w',
       deleteDepsFromPackageJSON [] CommaInString.world = Ok w'
       /\ files w' !! "package.json" = Some CommaInString.repaired
       /\ CommaInString.repaired <> CommaInString.manifest.
Proof.
  split; [reflexivity|]. split; [reflexivity|].
  vm_compute. eexists. repeat split; try reflexivity. discriminate.
Qed.

(** * Further properties *)

(** ** The walk with [scanDir] *)

(** X1. When every entry of the tree has an [Lstat], the walk with
    [scanDir] returns no error and dispatches exactly the files that lie
    under no excluded path and under no directory that cannot be listed, in
    the order of the walk; a directory that cannot be listed is passed
    over without any error. *)
Theorem Walk_dispatches_eligible (w : World) :
  statable (tree w) = true ->
  Walk "." scanDir w = Ok (None, eligible "." (tree w))
  /\ (forall path node tasks,
        statable node = true ->
        walk scanDir path node tasks
        = Ok (verdict path node, tasks ++ eligible path node))
  /\ (forall path name entries tasks,
        filesToExclude !! path = None ->
        walk scanDir path (Dir name false entries) tasks = Ok (None, tasks)).
Proof.
  intros Hst. split; [|split].
  - unfold Walk. rewrite walk_statable by done. simpl.
    by destruct (verdict_cases "." (tree w)) as [->|[-> _]].
  - intros. by apply walk_statable.
  - intros. by rewrite walk_Dir_open.
Qed.

Lemma Walk_dispatches_eligible_witness :
  Walk "." scanDir (Faulty.unlistable false) = Ok (None, ["index.js"]).
Proof.
  apply (Walk_dispatches_eligible (Faulty.unlistable false)). reflexivity.
Defined.

(** X2. Whatever the tree, the walk with [scanDir] never hands an error to
    [main] and never ends in [log.Fatal]: it panics or returns nil.  The
    tasks it dispatches are added behind the ones already there, and no
    dispatched path is an entry of the exclusion set. *)
Theorem Walk_never_fails (w : World) :
  match Walk "." scanDir w with
  | Ok (err, tasks) =>
      err = None /\ forall t, t ∈ tasks -> filesToExclude !! t = None
  | Fatal _ => False
  | Panic => True
  end.
Proof.
  unfold Walk. pose proof (walk_sound (tree w) "." []) as H.
  destruct (walk scanDir "." (tree w) []) as [[e tasks]| |]; [|done|done].
  destruct H as [He (new & -> & Hnew)]. simpl.
  destruct He as [->| ->]; simpl; (split; [done|exact Hnew]).
Qed.

(** X3. An entry of the root directory whose [Lstat] fails makes the run
    panic, when the entries before it can all be walked: [scanDir] calls
    [info.IsDir()] on the nil [info] it is given. *)
Theorem Walk_panics_without_lstat (w : World) (rootName name : string)
    (before after : list FsNode) :
  tree w = Dir rootName true (before ++ NoStat name :: after) ->
  forallb statable before = true ->
  Walk "." scanDir w = Panic.
Proof.
  intros Htree Hst. unfold Walk. rewrite Htree.
  rewrite walk_Dir_open by done.
  rewrite walkEntries_statable; [| |done].
  - cbn [walkEntries walk nodeName]. unfold scanDir.
    by destruct (filesToExclude !! _).
  - apply Forall_forall. intros child _ path tasks. apply walk_statable.
Qed.

Lemma Walk_panics_without_lstat_witness :
  Walk "." scanDir
    {| files := ∅;
       tree := Dir "." true [File "a.js"; NoStat "gone.js"; File "b.js"];
       refused := fun _ => false; stdout := [] |}
  = Panic.
Proof.
  apply (Walk_panics_without_lstat _ "." "gone.js" [File "a.js"]
           [File "b.js"]); reflexivity.
Defined.

(** ** The scan *)

Section ScanFacts.

Implicit Types d : Dependency.
Implicit Types w : World.

Lemma markAll_same_names (l k : list string) d :
  (forall n, n ∈ l <-> n ∈ k) -> markAll l d = markAll k d.
Proof.
  intros H. apply Dependency_eq, map_eq. intros i.
  rewrite !markAll_lookup. destruct (mp d !! i); [|done]. simpl.
  do 2 f_equal. apply bool_decide_ext. apply H.
Qed.

Lemma scanLine_lookup line d k :
  mp (scanLineAndExtractPkgs line d) !! k
  = (fun b => b || bool_decide (k ∈ lineCalls line)) <$> mp d !! k.
Proof. by rewrite scanLineAndExtractPkgs_calls, markAll_lookup. Qed.

Lemma waitAll_calls_all tasks w d d' :
  waitAll tasks w d = Ok d' ->
  exists calls,
    d' = markAll calls d
    /\ forall n, n ∈ calls <->
         exists file content line,
           file ∈ tasks /\ os.Open file w = inl content
           /\ line ∈ bufio.ScanLines content /\ n ∈ lineCalls line.
Proof.
  revert d. induction tasks as [|file tasks IH]; intros d.
  - intros [= <-]. exists []. split; [done|]. intros n. split.
    + intros H. by apply elem_of_nil in H.
    + intros (f & _ & _ & H & _). by apply elem_of_nil in H.
  - cbn [waitAll]. unfold readFileAndExtractPackages.
    destruct (os.Open file w) as [content|e] eqn:E; [|done]. simpl.
    rewrite scanLines_calls. intros (calls & -> & Hcalls)%IH.
    exists (concat (map lineCalls (bufio.ScanLines content)) ++ calls).
    split; [by rewrite markAll_app|].
    intros n. rewrite elem_of_app, Hcalls. split.
    + intros [Hn|(f & c & line & Hf & Ho & Hl & Hc)].
      * apply list_elem_of_In, in_concat in Hn as (l & Hl & Hn).
        apply list_elem_of_In in Hl, Hn.
        apply list_elem_of_fmap in Hl as (line & -> & Hline).
        exists file, content, line. repeat split; try done. by left.
      * exists f, c, line. repeat split; try done. by right.
    + intros (f & c & line & Hf & Ho & Hl & Hc).
      apply elem_of_cons in Hf as [->|Hf].
      * left. rewrite E in Ho. injection Ho as <-.
        apply list_elem_of_In, in_concat. exists (lineCalls line).
        split; apply list_elem_of_In; [|done].
        apply list_elem_of_fmap. by exists line.
      * right. by exists f, c, line.
Qed.

End ScanFacts.

(** X4. The table after a run of [markModuleAsFound] calls depends only on
    which names were passed, not on their order or on how often a name was
    passed: two calls commute, a repeated call changes nothing, and two
    runs with the same names leave the same table.  So the goroutines of a
    scan may take the lock in any order. *)
Theorem marks_depend_on_names_only (l k : list string) (d : Dependency) :
  (forall n, n ∈ l <-> n ∈ k) ->
  markAll l d = markAll k d
  /\ (forall a b,
        markModuleAsFound a (markModuleAsFound b d)
        = markModuleAsFound b (markModuleAsFound a d))
  /\ (forall a,
        markModuleAsFound a (markModuleAsFound a d) = markModuleAsFound a d).
Proof.
  intros H. split; [by apply markAll_same_names|]. split.
  - intros a b. apply (markAll_same_names [b; a] [a; b]).
    intros n. rewrite !elem_of_cons. intuition.
  - intros a. apply (markAll_same_names [a; a] [a]).
    intros n. rewrite !elem_of_cons. intuition.
Qed.

Lemma marks_depend_on_names_only_witness :
  markAll ["lodash"; "chalk"; "lodash"] (populate Sample.pkg {| mp := ∅ |})
  = markAll ["chalk"; "lodash"] (populate Sample.pkg {| mp := ∅ |}).
Proof.
  apply (marks_depend_on_names_only ["lodash"; "chalk"; "lodash"]
           ["chalk"; "lodash"]).
  intros n. rewrite !elem_of_cons. intuition.
Defined.

(** X5. [scanLineAndExtractPkgs] keeps the keys of the table and changes
    the flag of no name that does not occur in the line: only a declared
    name that is part of the text of the line can be marked by it. *)
Theorem scanLine_marks_only_names_in_line (line : string) (d : Dependency)
    (k : string) :
  ~ Substring k line ->
  mp (scanLineAndExtractPkgs line d) !! k = mp d !! k
  /\ dom (mp (scanLineAndExtractPkgs line d)) = dom (mp d).
Proof.
  intros Hk. split.
  - rewrite scanLine_lookup. destruct (mp d !! k) as [b|]; [|done]. simpl.
    rewrite bool_decide_false; [by rewrite orb_false_r|].
    intros H. by apply Hk, lineCalls_substring.
  - apply set_eq. intros i. rewrite !elem_of_dom, scanLine_lookup.
    by rewrite fmap_is_Some.
Qed.

Lemma scanLine_marks_only_names_in_line_witness :
  mp (scanLineAndExtractPkgs Sample.indexLine
        (populate Sample.pkg {| mp := ∅ |})) !! "chalk"
  = mp (populate Sample.pkg {| mp := ∅ |}) !! "chalk".
Proof.
  apply (scanLine_marks_only_names_in_line Sample.indexLine
           (populate Sample.pkg {| mp := ∅ |}) "chalk").
  apply Contains_false. reflexivity.
Defined.

Section WaitOrder.

Implicit Types tasks order : list string.
Implicit Types w : World.
Implicit Types d : Dependency.

Lemma waitAll_opens tasks w d :
  Forall (opens w) tasks -> exists d', waitAll tasks w d = Ok d'.
Proof.
  intros H. revert d. induction H as [|file tasks [c Hc] _ IH]; intros d.
  - by exists d.
  - cbn [waitAll]. unfold readFileAndExtractPackages. rewrite Hc. simpl.
    apply IH.
Qed.

Lemma waitAll_Ok_opens tasks w d d' :
  waitAll tasks w d = Ok d' -> Forall (opens w) tasks.
Proof.
  revert d. induction tasks as [|file tasks IH]; intros d H.
  - apply List.Forall_nil.
  - cbn [waitAll] in H. unfold readFileAndExtractPackages in H.
    destruct (os.Open file w) as [content|e] eqn:E; [|done]. simpl in H.
    apply List.Forall_cons; [by exists content|by apply IH in H].
Qed.

Lemma waitAll_Fatal tasks w d e :
  waitAll tasks w d = Fatal e ->
  exists file, file ∈ tasks /\ os.Open file w = inr e.
Proof.
  revert d. induction tasks as [|file tasks IH]; intros d H; [done|].
  cbn [waitAll] in H. unfold readFileAndExtractPackages in H.
  destruct (os.Open file w) as [content|e'] eqn:E; simpl in H.
  - destruct (IH _ H) as (f & Hf & He). exists f. split; [by right|done].
  - injection H as ->. exists file. split; [by left|done].
Qed.

Lemma waitAll_no_panic tasks w d : waitAll tasks w d <> Panic.
Proof.
  revert d. induction tasks as [|file tasks IH]; intros d; [done|].
  cbn [waitAll]. unfold readFileAndExtractPackages.
  destruct (os.Open file w); simpl; [apply IH|done].
Qed.

Lemma waitAll_order tasks order w d d1 d2 :
  order ≡ₚ tasks ->
  waitAll tasks w d = Ok d1 -> waitAll order w d = Ok d2 -> d1 = d2.
Proof.
  intros Hp (c1 & -> & H1)%waitAll_calls_all (c2 & -> & H2)%waitAll_calls_all.
  apply markAll_same_names. intros n. rewrite H1, H2.
  split; intros (file & content & line & Hin & H);
    exists file, content, line; (split; [|exact H]).
  - by rewrite Hp.
  - by rewrite <- Hp.
Qed.

End WaitOrder.

(** X6. Waiting for the tasks, in whatever order they run: when every
    dispatched file can be opened the wait returns a table, the same for
    every order; when the wait ends with [log.Fatal] the error is that of
    a dispatched file that cannot be opened; when some dispatched file
    cannot be opened the wait ends with [log.Fatal] in every order; and it
    never panics. *)
Theorem waitAll_fail_fast (tasks : list string) (w : World) (d : Dependency) :
  (Forall (opens w) tasks ->
     exists d', forall order, order ≡ₚ tasks -> waitAll order w d = Ok d')
  /\ (forall order e,
        order ≡ₚ tasks ->
        waitAll order w d = Fatal e ->
        exists file, file ∈ tasks /\ os.Open file w = inr e)
  /\ (~ Forall (opens w) tasks ->
        forall order, order ≡ₚ tasks -> exists e, waitAll order w d = Fatal e)
  /\ (forall order, order ≡ₚ tasks -> waitAll order w d <> Panic).
Proof.
  split; [|split; [|split]].
  - intros H. destruct (waitAll_opens tasks w d H) as [d' Hd'].
    exists d'. intros order Hp.
    assert (Forall (opens w) order) as Ho by (by rewrite Hp).
    destruct (waitAll_opens order w d Ho) as [d2 Hd2].
    by rewrite Hd2, (waitAll_order tasks order w d d' d2).
  - intros order e Hp (file & Hin & He)%waitAll_Fatal.
    exists file. split; [by rewrite <- Hp|done].
  - intros Hno order Hp.
    destruct (waitAll order w d) as [d'|e|] eqn:E.
    + destruct Hno. rewrite <- Hp. by apply waitAll_Ok_opens in E.
    + by exists e.
    + by apply waitAll_no_panic in E.
  - intros order _. apply waitAll_no_panic.
Qed.

(** X7. After the wait the table has the keys it had before, a flag that
    was [true] is still [true], and a flag that was [false] is [true]
    exactly when some line that the scanner yields for some dispatched file
    marks the name; such a name occurs in that line.  The scanner yields
    the lines in front of the first line of 65536 bytes or more. *)
Theorem scan_marks_exactly (tasks : list string) (w : World)
    (d d' : Dependency) :
  waitAll tasks w d = Ok d' ->
  dom (mp d') = dom (mp d)
  /\ (forall k, mp d !! k = Some true -> mp d' !! k = Some true)
  /\ (forall k,
        mp d !! k = Some false ->
        (mp d' !! k = Some true
         <-> exists file content line,
               file ∈ tasks /\ os.Open file w = inl content
               /\ line ∈ bufio.ScanLines content /\ k ∈ lineCalls line))
  /\ (forall k line, k ∈ lineCalls line -> Substring k line).
Proof.
  intros (calls & -> & Hcalls)%waitAll_calls_all.
  split; [|split; [|split]].
  - apply set_eq. intros k. rewrite !elem_of_dom, markAll_lookup.
    by rewrite fmap_is_Some.
  - intros k Hk. by rewrite markAll_lookup, Hk.
  - intros k Hk. rewrite markAll_lookup, Hk, <- Hcalls. simpl. split.
    + intros [= H]. by apply bool_decide_eq_true in H.
    + intros H. by rewrite bool_decide_true.
  - intros k line. apply lineCalls_substring.
Qed.

Lemma scan_marks_exactly_witness :
  exists d',
    waitAll ["index.js"] Sample.world (populate Sample.pkg {| mp := ∅ |})
    = Ok d'
    /\ dom (mp d') = dom (mp (populate Sample.pkg {| mp := ∅ |})).
Proof.
  eexists. split; [reflexivity|].
  apply (scan_marks_exactly ["index.js"] Sample.world). reflexivity.
Defined.

(** ** The table of the manifest and the removal list *)

Section TableFacts.

Implicit Types d : Dependency.

Lemma createDepsToRemoveList_filter (l : list (string * bool))
    (acc : list string) :
  foldl (fun depsToRemove '(k, v) =>
           if negb v then depsToRemove ++ [k] else depsToRemove) acc l
  = acc ++ (filter (fun kv => kv.2 = false) l).*1.
Proof.
  revert acc. induction l as [|[k v] l IH]; intros acc.
  - simpl. by rewrite app_nil_r.
  - cbn [foldl]. rewrite IH, filter_cons. destruct v; simpl; [done|].
    by rewrite <- List.app_assoc.
Qed.

Lemma createDepsToRemoveList_NoDup d : NoDup (createDepsToRemoveList d).
Proof.
  unfold createDepsToRemoveList. rewrite createDepsToRemoveList_filter.
  simpl. eapply sublist_NoDup; [apply (NoDup_fst_map_to_list (mp d))|].
  apply fmap_sublist, sublist_filter.
Qed.

End TableFacts.

(** X8. Starting from the empty table, [readPackages] leaves a table whose
    keys are exactly the names declared under dependencies or
    devDependencies; the flag of a key is [true] exactly when the name
    occurs in the command of some script, so without scripts every flag is
    [false]. *)
Theorem populate_declares (pkg : Package) :
  dom (mp (populate pkg {| mp := ∅ |}))
  = dom (Dependencies pkg) ∪ dom (DevDependencies pkg)
  /\ (forall k,
        mp (populate pkg {| mp := ∅ |}) !! k = Some true
        <-> (is_Some (Dependencies pkg !! k)
             \/ is_Some (DevDependencies pkg !! k))
            /\ exists name script,
                 Scripts pkg !! name = Some script /\ Substring k script)
  /\ (Scripts pkg = ∅ ->
      forall k b, mp (populate pkg {| mp := ∅ |}) !! k = Some b -> b = false).
Proof.
  split; [|split].
  - apply set_eq. intros k.
    rewrite elem_of_union, !elem_of_dom, populate_lookup.
    case_decide as H; [|split; [by intros [? ?]|done]].
    split; [done|]. intros _. by eexists.
  - intros k. rewrite populate_lookup. case_decide as H.
    + split.
      * intros [= (script & Hin & Hc)%existsb_exists]. split; [done|].
        apply list_elem_of_In, rangeValues_elem in Hin as [name Hs].
        exists name, script. split; [done|]. by apply Contains_spec.
      * intros [_ (name & script & Hs & Hsub)]. f_equal.
        apply existsb_exists. exists script. split.
        -- apply list_elem_of_In, rangeValues_elem. by exists name.
        -- by apply Contains_spec.
    + split; [done|]. by intros [? _].
  - intros Hs k b. rewrite populate_lookup, Hs. unfold rangeValues.
    rewrite map_to_list_empty. simpl. case_decide; [|done]. by intros [= <-].
Qed.

(** X9. The removal list names no dependency twice, it is empty exactly
    when every flag of the table is [true], and marking names can only take
    names out of it: after a run of calls it holds the names it held before
    that were not passed. *)
Theorem removal_list_shrinks (names : list string) (d : Dependency) :
  NoDup (createDepsToRemoveList d)
  /\ (createDepsToRemoveList d = []
      <-> forall k b, mp d !! k = Some b -> b = true)
  /\ (forall k,
        k ∈ createDepsToRemoveList (markAll names d)
        <-> k ∈ createDepsToRemoveList d /\ k ∉ names).
Proof.
  split; [apply createDepsToRemoveList_NoDup|]. split.
  - split.
    + intros Hnil k b Hk. destruct b; [done|].
      apply createDepsToRemoveList_spec in Hk. rewrite Hnil in Hk.
      by apply elem_of_nil in Hk.
    + intros H. apply elem_of_nil_inv. intros k Hk.
      apply createDepsToRemoveList_spec, H in Hk. done.
  - intros k. rewrite !createDepsToRemoveList_spec, markAll_lookup.
    destruct (mp d !! k) as [[|]|]; simpl.
    + split; [done|]. by intros [? _].
    + destruct (decide (k ∈ names)) as [Hin|Hin].
      * rewrite bool_decide_true by done. split; [done|]. by intros [_ ?].
      * by rewrite bool_decide_false by done.
    + split; [done|]. by intros [? _].
Qed.

(** ** The pruner *)

Section PrunerFacts.

Implicit Types line dep : string.
Implicit Types deps : list string.

Lemma shouldWrite_same_names line deps deps' :
  (forall dep, dep ∈ deps <-> dep ∈ deps') ->
  shouldWrite line deps = shouldWrite line deps'.
Proof.
  intros H.
  destruct (shouldWrite line deps) eqn:E1, (shouldWrite line deps') eqn:E2;
    try done.
  - pose proof (proj1 (shouldWrite_spec _ _) E1) as H1.
    apply not_true_iff_false in E2. destruct E2.
    apply shouldWrite_spec. intros dep Hd. apply H1. by apply H.
  - pose proof (proj1 (shouldWrite_spec _ _) E2) as H2.
    apply not_true_iff_false in E1. destruct E1.
    apply shouldWrite_spec. intros dep Hd. apply H2. by apply H.
Qed.

Lemma copyLines_same_names deps deps' lines :
  (forall dep, dep ∈ deps <-> dep ∈ deps') ->
  copyLines deps lines = copyLines deps' lines.
Proof.
  intros H. induction lines as [|line lines IH]; [done|].
  cbn [copyLines]. by rewrite IH, (shouldWrite_same_names _ _ _ H).
Qed.

Lemma shouldWrite_app line deps deps' :
  shouldWrite line (deps ++ deps')
  = shouldWrite line deps && shouldWrite line deps'.
Proof.
  induction deps as [|dep deps IH]; [done|]. simpl.
  by destruct (Contains line dep).
Qed.

End PrunerFacts.

(** X10. The filtered copy depends only on which names the removal list
    holds, not on their order (the order of the list is that of one
    iteration over the map) or on repetitions; and a longer list keeps
    fewer lines: a line is kept for two lists joined exactly when it is
    kept for each of them. *)
Theorem copyLines_order_irrelevant (deps deps' : list string)
    (lines : list string) :
  (forall dep, dep ∈ deps <-> dep ∈ deps') ->
  copyLines deps lines = copyLines deps' lines
  /\ (forall line more,
        shouldWrite line (deps ++ more)
        = shouldWrite line deps && shouldWrite line more).
Proof.
  intros H. split; [by apply copyLines_same_names|].
  intros. apply shouldWrite_app.
Qed.

Lemma copyLines_order_irrelevant_witness :
  copyLines ["chalk"; "lodash"] Sample.manifestLines
  = copyLines ["lodash"; "chalk"; "lodash"] Sample.manifestLines.
Proof.
  apply (copyLines_order_irrelevant ["chalk"; "lodash"]
           ["lodash"; "chalk"; "lodash"]).
  intros dep. rewrite !elem_of_cons. intuition.
Defined.

Section PrunerFiles.

Implicit Types w : World.
Implicit Types deps : list string.

Lemma deleteDeps_files deps w content :
  files w !! "package.json" = Some content ->
  (forall op, refused w op = false) ->
  deleteDepsFromPackageJSON deps w
  = Ok (setFiles
          (<["package.json" :=
               ReplaceAllString (copyLines deps (bufio.ScanLines content))]>
             (delete "newPackage.json"
                (<["oldpackage.json" := content]>
                   (delete "package.json"
                      (<["newPackage.json" :=
                           ReplaceAllString
                             (copyLines deps (bufio.ScanLines content))]>
                         (files w))))))
          w).
Proof.
  intros Hfile Hok.
  unfold deleteDepsFromPackageJSON, createNewPackageJsonFile,
    removeTrailingCommas, os.Open, os.Create, os.ReadFile, os.WriteFile,
    os.Rename.
  rewrite Hok, Hfile. simpl. rewrite !Hok. simpl.
  rewrite lookup_insert_eq. simpl. rewrite !Hok. simpl.
  rewrite !lookup_insert_ne, Hfile by done. simpl.
  rewrite lookup_insert_ne, lookup_delete_ne, lookup_insert_eq by done.
  simpl. rewrite Hok. f_equal. unfold setFiles. simpl. f_equal.
  by rewrite !insert_insert_eq.
Qed.

End PrunerFiles.

(** X11. When the manifest is there and no operation is refused, the
    pruner ends normally and leaves the repaired filtered copy of the lines
    that the scanner yields, those in front of the first line of 65536
    bytes or more, under the name of the manifest and the original content
    under the backup name; the temporary file is gone, every other file is
    as it was, and nothing is printed. *)
Theorem deleteDepsFromPackageJSON_files (deps : list string) (w : World)
    (content : string) :
  files w !! "package.json" = Some content ->
  (forall op, refused w op = false) ->
  exists w',
    deleteDepsFromPackageJSON deps w = Ok w'
    /\ files w' !! "package.json"
       = Some (ReplaceAllString (copyLines deps (bufio.ScanLines content)))
    /\ files w' !! "oldpackage.json" = Some content
    /\ files w' !! "newPackage.json" = None
    /\ (forall path,
          path <> "package.json" -> path <> "oldpackage.json" ->
          path <> "newPackage.json" ->
          files w' !! path = files w !! path)
    /\ stdout w' = stdout w.
Proof.
  intros Hfile Hok. eexists. split; [by apply deleteDeps_files|]. simpl.
  split; [apply lookup_insert_eq|]. split; [|split; [|split; [|done]]].
  - rewrite lookup_insert_ne, lookup_delete_ne by done.
    apply lookup_insert_eq.
  - rewrite lookup_insert_ne by done. apply lookup_delete_eq.
  - intros path H1 H2 H3.
    rewrite lookup_insert_ne, lookup_delete_ne, lookup_insert_ne,
      lookup_delete_ne, lookup_insert_ne by done.
    done.
Qed.

Lemma deleteDepsFromPackageJSON_files_witness :
  exists w',
    deleteDepsFromPackageJSON ["chalk"] Sample.world = Ok w'
    /\ files w' !! "package.json"
       = Some (ReplaceAllString
                 (copyLines ["chalk"] (bufio.ScanLines Sample.manifest)))
    /\ files w' !! "oldpackage.json" = Some Sample.manifest
    /\ files w' !! "newPackage.json" = None
    /\ (forall path,
          path <> "package.json" -> path <> "oldpackage.json" ->
          path <> "newPackage.json" ->
          files w' !! path = files Sample.world !! path)
    /\ stdout w' = stdout Sample.world.
Proof.
  apply (deleteDepsFromPackageJSON_files ["chalk"] Sample.world
           Sample.manifest).
  - reflexivity.
  - intros op. reflexivity.
Defined.

(** ** The repair, byte by byte *)

Section RepairBytes.

Implicit Types s ws rest : string.

Lemma withoutCommasAndSpaces_spaces ws s :
  every isSpace ws = true ->
  withoutCommasAndSpaces (ws +:+ s) = withoutCommasAndSpaces s.
Proof.
  intros H. induction ws as [|c ws IH]; [done|].
  simpl in H. apply andb_true_iff in H as [Hc Hws].
  rewrite app_cons. simpl. rewrite Hc, orb_true_r. by apply IH.
Qed.

Lemma withoutCommasAndSpaces_repair s :
  withoutCommasAndSpaces (ReplaceAllString s) = withoutCommasAndSpaces s.
Proof.
  remember (len s) as n eqn:Hn. revert s Hn.
  induction n as [n IH] using lt_wf_ind. intros s ->.
  destruct s as [|c s]; [done|].
  destruct (commaBraceAt (String c s)) as [rest|] eqn:E.
  - rewrite (ReplaceAllString_match _ _ E).
    apply commaBraceAt_spec in E as (ws & Hws & E). rewrite E.
    cbn [withoutCommasAndSpaces]. simpl.
    rewrite withoutCommasAndSpaces_spaces by done.
    cbn [withoutCommasAndSpaces]. simpl. f_equal.
    apply (IH (len rest)); [|done].
    rewrite E, len_cons, len_app, len_cons. lia.
  - rewrite (ReplaceAllString_no_match _ _ E).
    cbn [withoutCommasAndSpaces].
    assert (withoutCommasAndSpaces (ReplaceAllString s)
            = withoutCommasAndSpaces s) as ->; [|done].
    apply (IH (len s)); [rewrite len_cons; lia|done].
Qed.

End RepairBytes.

(** X12. The repair of [removeTrailingCommas] only deletes commas and
    white space: the text without its commas and white space is the same
    before and after, and the text never gets longer. *)
Theorem repair_only_deletes_commas_and_spaces (s : string) :
  withoutCommasAndSpaces (ReplaceAllString s) = withoutCommasAndSpaces s
  /\ len (ReplaceAllString s) <= len s.
Proof.
  split; [apply withoutCommasAndSpaces_repair|apply ReplaceAllString_len].
Qed.

(** ** The names of import clauses *)

Section ImportNames.

Implicit Types line : string.
Implicit Types m : Submatch.

Lemma importName_clean m :
  IsImportMatch m ->
  importName m <> ""
  /\ every (fun c => negb (isQuote c)) (importName m) = true.
Proof.
  intros Hm. pose proof (IsImportMatch_name _ Hm) as Hn.
  destruct Hm as [[Hc E]|[Hc E]];
    destruct Hn as [(H1 & H2 & ->)|(H1 & H2 & ->)];
    destruct Hc as (ws & q1 & q2 & _ & _ & _ & Hne & Hq & _); done.
Qed.

Lemma IsImportMatch_keyword m :
  IsImportMatch m ->
  Substring "from" (whole m) \/ Substring "import" (whole m).
Proof.
  intros [[(ws & q1 & q2 & _ & _ & _ & _ & _ & ->) _]
         |[(ws & q1 & q2 & _ & _ & _ & _ & _ & ->) _]].
  - left. by eexists "", _.
  - right. by eexists "", _.
Qed.

Lemma findAll_without_keyword line :
  ~ Substring "from" line -> ~ Substring "import" line ->
  FindAllStringSubmatch line = [].
Proof.
  intros Hf Hi. pose proof (findAll_leftmost line) as H.
  destruct (FindAllStringSubmatch line) as [|m ms] eqn:E; [done|].
  exfalso.
  assert (Substring (whole m) line) as Hsub.
  { eapply LeftmostMatches_substring; [exact H|by left]. }
  assert (IsImportMatch m) as Hm.
  { eapply LeftmostMatches_all; [exact H|by left]. }
  destruct (IsImportMatch_keyword _ Hm) as [Hk|Hk].
  - apply Hf. by eapply Substring_trans.
  - apply Hi. by eapply Substring_trans.
Qed.

End ImportNames.

(** X13. Every name that [handleImportCase] passes on is part of the line,
    has at least one byte and contains no quote of either kind; a line in
    which neither the word from nor the word import occurs leaves the table
    as it is. *)
Theorem import_names_are_clean (line : string) (d : Dependency) :
  (forall m,
     m ∈ FindAllStringSubmatch line ->
     importName m <> ""
     /\ every (fun c => negb (isQuote c)) (importName m) = true
     /\ Substring (importName m) line)
  /\ (~ Substring "from" line -> ~ Substring "import" line ->
      handleImportCase line d = d).
Proof.
  split.
  - intros m Hm. pose proof (findAll_leftmost line) as HL.
    pose proof (LeftmostMatches_all _ _ _ HL Hm) as HI.
    destruct (importName_clean _ HI) as [H1 H2]. repeat split; try done.
    eapply Substring_trans; [by apply importName_substring|].
    by eapply LeftmostMatches_substring.
  - intros Hf Hi. unfold handleImportCase.
    by rewrite findAll_without_keyword.
Qed.

(** ** Scanning what the writer wrote *)

(** X14. The scanner reads back the lines the writer wrote: lines without
    line feed that do not end in a carriage return and are shorter than
    65536 bytes, each written with a line feed behind it, are scanned as
    the same lines.  Hence the filtered copy of a manifest none of whose
    scanned lines ends in a carriage return is a fixed point: copying it
    again with the same removal list writes the same text. *)
Theorem filtered_copy_is_fixed_point (deps : list string) (content : string) :
  Forall (fun line => noTrailingCR line = true) (bufio.ScanLines content) ->
  (forall lines,
     Forall (fun line => noLF line = true /\ noTrailingCR line = true
                         /\ shortLine line = true) lines ->
     bufio.ScanLines (joinLines lines) = lines)
  /\ bufio.ScanLines (copyLines deps (bufio.ScanLines content))
     = filter (fun line => shouldWrite line deps = true)
              (bufio.ScanLines content)
  /\ copyLines deps
       (bufio.ScanLines (copyLines deps (bufio.ScanLines content)))
     = copyLines deps (bufio.ScanLines content).
Proof.
  intros Hcr. split; [apply ScanLines_joinLines|].
  assert (bufio.ScanLines (copyLines deps (bufio.ScanLines content))
          = filter (fun line => shouldWrite line deps = true)
                   (bufio.ScanLines content)) as E.
  { rewrite copyLines_filter. apply ScanLines_joinLines.
    apply Forall_forall. intros line [_ Hin]%list_elem_of_filter.
    split; [|split].
    - pose proof (scanLinesFrom_noLF 0 [] content eq_refl) as H.
      by apply (proj1 (Forall_forall _ _) H).
    - by apply (proj1 (Forall_forall _ _) Hcr).
    - pose proof (scanLinesFrom_short 0 [] content eq_refl eq_refl) as H.
      by apply (proj1 (Forall_forall _ _) H). }
  split; [exact E|]. rewrite E, !copyLines_filter. f_equal.
  rewrite list_filter_filter. apply list_filter_iff. intuition.
Qed.

Lemma filtered_copy_is_fixed_point_witness :
  copyLines ["chalk"]
    (bufio.ScanLines (copyLines ["chalk"] (bufio.ScanLines Sample.manifest)))
  = copyLines ["chalk"] (bufio.ScanLines Sample.manifest).
Proof.
  apply (filtered_copy_is_fixed_point ["chalk"] Sample.manifest).
  vm_compute. repeat constructor.
Defined.

(** ** The whole run *)

Section WholeRun.

Implicit Types w : World.
Implicit Types d : Dependency.

Lemma waitAll_Println line tasks w d :
  waitAll tasks (Println line w) d = waitAll tasks w d.
Proof.
  revert d. induction tasks as [|file tasks IH]; intros d; [done|].
  cbn [waitAll]. unfold readFileAndExtractPackages.
  change (os.Open file (Println line w)) with (os.Open file w).
  destruct (os.Open file w); simpl; [apply IH|done].
Qed.

Lemma PrintAll_cons line lines w :
  PrintAll (line :: lines) w = PrintAll lines (Println line w).
Proof. reflexivity. Qed.

Lemma PrintAll_files lines w : files (PrintAll lines w) = files w.
Proof.
  revert w. induction lines as [|line lines IH]; intros w; [done|].
  by rewrite PrintAll_cons, IH.
Qed.

Lemma PrintAll_refused lines w : refused (PrintAll lines w) = refused w.
Proof.
  revert w. induction lines as [|line lines IH]; intros w; [done|].
  by rewrite PrintAll_cons, IH.
Qed.

Lemma PrintAll_stdout lines w : stdout (PrintAll lines w) = stdout w ++ lines.
Proof.
  revert w. induction lines as [|line lines IH]; intros w.
  - cbn [PrintAll foldl]. by rewrite app_nil_r.
  - rewrite PrintAll_cons, IH.
    cbn [stdout Println]. by rewrite <- List.app_assoc.
Qed.

End WholeRun.

(** X15. A run in which nothing goes wrong: the manifest is there, no
    operation is refused, every entry of the tree has an [Lstat] and every
    dispatched file can be opened.  Then [main] ends normally, whatever
    error the decoder returned; the manifest holds the repaired copy of the
    lines the scanner yields for its old content, without those that
    contain a name whose flag the scan of the eligible files left [false],
    and the backup holds the old content.  On the standard output [main]
    has added its line for the manifest, then the lines of the tasks in
    some order, then the line that ends the walk, a line for every key of
    the table in some order, and its three last lines. *)
Theorem main_prunes_unmarked (Unmarshal : string -> Package * option error)
    (w : World) (content : string) (pkg : Package) (err : option error)
    (d' : Dependency) :
  files w !! "package.json" = Some content ->
  (forall op, refused w op = false) ->
  Unmarshal content = (pkg, err) ->
  statable (tree w) = true ->
  waitAll (eligible "." (tree w)) w (populate pkg {| mp := ∅ |}) = Ok d' ->
  exists w' printed removing,
    main Unmarshal w = Ok w'
    /\ files w' !! "package.json"
       = Some (ReplaceAllString
                 (copyLines (createDepsToRemoveList d')
                            (bufio.ScanLines content)))
    /\ files w' !! "oldpackage.json" = Some content
    /\ stdout w'
       = stdout w
         ++ ["Reading Package.json"] ++ printed
         ++ ["Finished walking the directory"] ++ removing
         ++ [ "Program Complete...."; "Package.json has been changed.";
              "Refer to oldpackage.json for the old original file." ]
    /\ printed ≡ₚ waitAllPrints (eligible "." (tree w)) w
    /\ removing
       ≡ₚ map (fun k => "Removing Package: " +:+ k) (rangeKeys (mp d')).
Proof.
  intros Hfile Hok Hdec Hst Hwait.
  unfold main, readPackages, os.Open. rewrite Hok, Hfile. simpl.
  rewrite Hdec. simpl.
  assert (Walk "." scanDir (Println "Reading Package.json" w)
          = Ok (None, eligible "." (tree w))) as ->.
  { unfold Walk. simpl. rewrite walk_statable by done. simpl.
    by destruct (verdict_cases "." (tree w)) as [->|[-> _]]. }
  simpl. unfold afterWalk. rewrite waitAll_Println, Hwait.
  cbn [mbind Outcome_bind].
  change (waitAllPrints (eligible "." (tree w))
            (Println "Reading Package.json" w))
    with (waitAllPrints (eligible "." (tree w)) w).
  set (tasks := eligible "." (tree w)).
  set (w1 := PrintAll (createDepsToRemoveListPrints d')
               (Println "Finished walking the directory"
                  (PrintAll (waitAllPrints tasks w)
                     (Println "Reading Package.json" w)))).
  assert (files w1 = files w) as Hf.
  { subst w1. rewrite PrintAll_files. cbn [files Println].
    by rewrite PrintAll_files. }
  assert (refused w1 = refused w) as Hr.
  { subst w1. rewrite PrintAll_refused. cbn [refused Println].
    by rewrite PrintAll_refused. }
  assert (stdout w1
          = stdout w ++ ["Reading Package.json"] ++ waitAllPrints tasks w
            ++ ["Finished walking the directory"]
            ++ createDepsToRemoveListPrints d') as Hs.
  { subst w1. rewrite PrintAll_stdout. cbn [stdout Println].
    rewrite PrintAll_stdout. cbn [stdout Println].
    by rewrite <- !List.app_assoc. }
  rewrite (deleteDeps_files _ w1 content)
    by (by rewrite Hf || (intros op; by rewrite Hr)).
  cbn [mbind Outcome_bind].
  eexists _, (waitAllPrints tasks w), (createDepsToRemoveListPrints d').
  split; [reflexivity|]. cbn [files stdout Println setFiles].
  split; [apply lookup_insert_eq|]. split; [|split; [|done]].
  - rewrite lookup_insert_ne, lookup_delete_ne by done.
    apply lookup_insert_eq.
  - rewrite Hs. by rewrite <- !List.app_assoc.
Qed.

Lemma main_prunes_unmarked_witness :
  exists w',
    main Sample.decode Sample.world = Ok w'
    /\ files w' !! "package.json" = Some Faulty.withoutChalk
    /\ files w' !! "oldpackage.json" = Some Sample.manifest.
Proof.
  destruct (main_prunes_unmarked Sample.decode Sample.world Sample.manifest
              Sample.pkg None
              (markAll ["lodash"] (populate Sample.pkg {| mp := ∅ |})))
    as (w' & printed & removing & Hmain & Hpkg & Hold & _);
    try reflexivity.
  exists w'. split; [exact Hmain|]. split; [|exact Hold].
  rewrite Hpkg. reflexivity.
Defined.

(** ** The names of require calls *)

Section RequireNames.

Implicit Types v line : string.

Lemma TrimSuffix_no_dot v suffix :
  HasPrefix v "." = false -> HasPrefix (TrimSuffix v suffix) "." = false.
Proof.
  intros H. unfold TrimSuffix. destruct (HasSuffix v suffix); [|done].
  destruct v as [|c v]; [by destruct (len "" - len suffix)|].
  by destruct (len (String c v) - len suffix).
Qed.

End RequireNames.

(** X16. Every name that [handleRequireCase] passes on is part of the line
    and does not start with a dot.  A line in which the separator does not
    occur leaves the table as it is, so the test for the word require in
    [scanLineAndExtractPkgs] never changes what a line does. *)
Theorem require_names_are_packages (line : string) (d : Dependency) :
  handleRequireCase line d = markAll (requireCalls line) d
  /\ (forall n,
        n ∈ requireCalls line ->
        Substring n line /\ HasPrefix n "." = false)
  /\ (~ Substring requireOpen line -> handleRequireCase line d = d)
  /\ (if Contains line "require" then handleRequireCase line d else d)
     = handleRequireCase line d.
Proof.
  split; [apply handleRequireCase_calls|]. split; [|split].
  - intros n Hn. unfold requireCalls in Hn.
    apply list_elem_of_fmap in Hn as (v & -> & [Hdot Hv]%list_elem_of_filter).
    split; [|by apply TrimSuffix_no_dot].
    destruct (TrimSuffix_prefix v requireClose) as [r Hr].
    assert (Substring v line) as Hsub.
    { apply Split_substring with requireOpen.
      destruct (Split line requireOpen); [done|by right]. }
    eapply Substring_trans; [|exact Hsub].
    exists "", r. by rewrite app_empty_l.
  - intros H. unfold handleRequireCase. by rewrite Split_no_sep.
  - apply require_test_is_redundant.
Qed.
